(** * ml-search-mvp: the search endpoint of [api/search.js]

    A shallow embedding of the serverless handler: criteria extraction
    (language-model path and [heuristicParse]), enrichment of marketplace
    items, the scoring loop, the sort and the response.

    Conventions of the model:
    - a JavaScript string is a Rocq [string] holding its UTF-8 bytes:
      strings are well-formed text, on which substring search on bytes
      agrees with substring search on code units and which
      [encodeURIComponent] accepts;
    - a JavaScript number is [NaN] or an exact rational [Num q]: the IEEE
      rounding of the double arithmetic is idealised away, infinities do not
      occur (every division of the source is guarded);
    - untyped data (the criteria object, the marketplace's shipping and
      seller blocks, language-model replies) is a [value];
    - everything the handler reads from outside (environment, network,
      clock, the engine's JSON and date parsers) is a field of [World]. *)

From Stdlib Require Import String Ascii List Bool ZArith QArith Qround Qminmax.
From Stdlib Require Import Lia Lqa Sorted Permutation DecimalString.
Import ListNotations.

Local Open Scope string_scope.

(* ================================================================== *)
(** * JavaScript values *)
(* ================================================================== *)

Module JS.

Inductive number : Type :=
| NaN
| Num (q : Q).

#[warnings="-register-all"]
Inductive value : Type :=
| VUndefined
| VNull
| VBool (b : bool)
| VNumber (n : number)
| VString (s : string)
| VArray (xs : list value)
| VObject (fields : list (string * value)).

Definition isZero (q : Q) : bool := Qeq_bool q 0.

(** ToBoolean: [undefined], [null], [false], [NaN], [0] and [""] are
    falsy, everything else is truthy. *)
Definition truthy (v : value) : bool :=
  match v with
  | VUndefined | VNull => false
  | VBool b => b
  | VNumber NaN => false
  | VNumber (Num q) => negb (isZero q)
  | VString s => negb (s =? "")
  | VArray _ | VObject _ => true
  end.

(** [a || b] *)
Definition or_else (a b : value) : value := if truthy a then a else b.

Definition nullish (v : value) : bool :=
  match v with
  | VUndefined | VNull => true
  | _ => false
  end.

Fixpoint lookup (fields : list (string * value)) (k : string) : value :=
  match fields with
  | [] => VUndefined
  | (k', v) :: rest => if k' =? k then v else lookup rest k
  end.

(** [o.k] on a value that is not nullish: an own property of an object,
    [undefined] on anything else (none of the keys read by the handler is
    a built-in property of a primitive or of an array). *)
Definition prop (o : value) (k : string) : value :=
  match o with
  | VObject fields => lookup fields k
  | _ => VUndefined
  end.

(** [o?.k] *)
Definition opt_prop (o : value) (k : string) : value :=
  if nullish o then VUndefined else prop o k.

(** [o?.[0]] *)
Definition opt_first (o : value) : value :=
  match o with
  | VArray (x :: _) => x
  | VObject fields => lookup fields "0"
  | VString (String c _) => VString (String c "")
  | _ => VUndefined
  end.

(** [v === false] *)
Definition strictly_false (v : value) : bool :=
  match v with
  | VBool false => true
  | _ => false
  end.

Definition isBoolean (v : value) : bool :=
  match v with
  | VBool _ => true
  | _ => false
  end.

(** ** Numbers *)

Definition lift2 (f : Q -> Q -> Q) (a b : number) : number :=
  match a, b with
  | Num x, Num y => Num (f x y)
  | _, _ => NaN
  end.

Definition nadd := lift2 Qplus.
Definition nsub := lift2 Qminus.
Definition nmul := lift2 Qmult.

(** [Math.min(a, b)]: [NaN] as soon as one argument is. *)
Definition Math_min := lift2 Qmin.

(** [Math.round]: the nearest integer, halves towards plus infinity. *)
Definition round_half_up (q : Q) : Z := Qfloor (q + (1 # 2)).

Definition Math_round (n : number) : number :=
  match n with
  | NaN => NaN
  | Num q => Num (inject_Z (round_half_up q))
  end.

Definition ofZ (z : Z) : number := Num (inject_Z z).

(** ** Strings *)

Definition is_digit (c : ascii) : bool :=
  let n := nat_of_ascii c in (48 <=? n)%nat && (n <=? 57)%nat.

(** [s.includes(sub)] *)
Fixpoint includes (s sub : string) : bool :=
  if String.prefix sub s then true
  else match s with
       | EmptyString => false
       | String _ rest => includes rest sub
       end.

Definition byte (n : nat) : ascii := ascii_of_nat n.

(** One white-space code point of the class [\s] (also the set that
    [trim] strips) at the head of [s], in UTF-8; the rest of the string
    after it. *)
Definition skip_space (s : string) : option string :=
  match s with
  | String c r =>
    let n := nat_of_ascii c in
    if ((9 <=? n) && (n <=? 13) || (n =? 32))%nat then Some r
    else match r with
    | String c1 r1 =>
      let n1 := nat_of_ascii c1 in
      if ((n =? 194) && (n1 =? 160))%nat then Some r1          (* U+00A0 *)
      else match r1 with
      | String c2 r2 =>
        let n2 := nat_of_ascii c2 in
        if ((n =? 225) && (n1 =? 154) && (n2 =? 128)             (* U+1680 *)
            || (n =? 226) && (n1 =? 128)
               && ((128 <=? n2) && (n2 <=? 138)                  (* U+2000-200A *)
                   || (n2 =? 168) || (n2 =? 169) || (n2 =? 175)) (* U+2028/9, 202F *)
            || (n =? 226) && (n1 =? 129) && (n2 =? 159)          (* U+205F *)
            || (n =? 227) && (n1 =? 128) && (n2 =? 128)          (* U+3000 *)
            || (n =? 239) && (n1 =? 187) && (n2 =? 191))%nat     (* U+FEFF *)
        then Some r2 else None
      | EmptyString => None
      end
    | EmptyString => None
    end
  | EmptyString => None
  end.

Fixpoint all_space_fuel (fuel : nat) (s : string) : bool :=
  match s with
  | EmptyString => true
  | _ =>
    match fuel with
    | O => false
    | S fuel' =>
      match skip_space s with
      | Some r => all_space_fuel fuel' r
      | None => false
      end
    end
  end.

(** [s] consists of white space only. *)
Definition all_space (s : string) : bool := all_space_fuel (String.length s) s.

Fixpoint trimStart_fuel (fuel : nat) (s : string) : string :=
  match fuel with
  | O => s
  | S fuel' =>
    match skip_space s with
    | Some r => trimStart_fuel fuel' r
    | None => s
    end
  end.

Definition trimStart (s : string) : string := trimStart_fuel (String.length s) s.

Fixpoint trimEnd (s : string) : string :=
  match s with
  | EmptyString => EmptyString
  | String c r => if all_space s then EmptyString else String c (trimEnd r)
  end.

(** [s.trim()] *)
Definition trim (s : string) : string := trimEnd (trimStart s).

(** [s.toLowerCase()] on the letters the handler can tell apart: ASCII
    A-Z and the Latin-1 capitals U+00C0-U+00DE (without U+00D7), whose
    UTF-8 form is the byte 195 followed by 128-158.  Other code points are
    left as they are. *)
Fixpoint toLowerCase (s : string) : string :=
  match s with
  | EmptyString => EmptyString
  | String c r =>
    let n := nat_of_ascii c in
    if ((65 <=? n) && (n <=? 90))%nat then String (byte (n + 32)) (toLowerCase r)
    else if (n =? 195)%nat then
      match r with
      | String c1 r1 =>
        let n1 := nat_of_ascii c1 in
        if ((128 <=? n1) && (n1 <=? 158) && negb (n1 =? 151))%nat
        then String c (String (byte (n1 + 32)) (toLowerCase r1))
        else String c (String c1 (toLowerCase r1))
      | EmptyString => String c EmptyString
      end
    else String c (toLowerCase r)
  end.

End JS.

(* ================================================================== *)
(** * Criteria extraction without the language model: [heuristicParse] *)
(* ================================================================== *)

Module Heuristic.
Import JS.

Definition categories : list string :=
  ["auricular"; "auriculares"; "celular"; "notebook"; "zapatilla";
   "zapatillas"; "monitor"; "televisor"; "tv"].

(** [for (const c of categories) if (p.includes(c)) { category = c; break; }] *)
Definition category_of (p : string) : option string :=
  find (fun c => includes p c) categories.

(** ** The price pattern
    [/\$?\s?([0-9]{2,6})(?:\s?(usd|dólares|dolares|ars|pesos))?/]

    Only capture group 1 is read.  The trailing group is optional, so it
    decides neither whether nor where the pattern matches, nor what group
    1 holds; the matcher below stops after the digits. *)

Fixpoint digits_upto (n : nat) (s : string) : string :=
  match n, s with
  | S n', String c r => if is_digit c then String c (digits_upto n' r) else ""
  | _, _ => ""
  end.

(** [([0-9]{2,6})] at the head of [s], greedy. *)
Definition digits_2_6 (s : string) : option string :=
  let d := digits_upto 6 s in
  if (2 <=? String.length d)%nat then Some d else None.

(** [\s?([0-9]{2,6})]: first with the space taken, then without. *)
Definition space_digits (s : string) : option string :=
  match skip_space s with
  | Some r =>
    match digits_2_6 r with
    | Some d => Some d
    | None => digits_2_6 s
    end
  | None => digits_2_6 s
  end.

(** The whole pattern anchored at the head of [s]: first with the dollar
    sign taken, then without. *)
Definition price_at (s : string) : option string :=
  match s with
  | String "$"%char r =>
    match space_digits r with
    | Some d => Some d
    | None => space_digits s
    end
  | _ => space_digits s
  end.

(** [p.match(...)]: group 1 of the leftmost match. *)
Fixpoint priceMatch (s : string) : option string :=
  match price_at s with
  | Some d => Some d
  | None =>
    match s with
    | EmptyString => None
    | String _ r => priceMatch r
    end
  end.

(** [parseInt(digits, 10)] on a string of decimal digits. *)
Definition parseInt (digits : string) : Z :=
  fold_left (fun acc c => (10 * acc + Z.of_nat (nat_of_ascii c - 48))%Z)
            (list_ascii_of_string digits) 0%Z.

Definition budget_max_of (p : string) : value :=
  match priceMatch p with
  | Some d => VNumber (ofZ (parseInt d))
  | None => VNull
  end.

(** ** The date a week from now
    [new Date(Date.now() + 7*24*3600*1000).toISOString().split('T')[0]] *)

(** Year, month and day of the proleptic Gregorian calendar from the
    number of days since 1970-01-01. *)
Definition civil_from_days (days : Z) : Z * Z * Z :=
  let z := (days + 719468)%Z in
  let era := (z / 146097)%Z in
  let doe := (z - era * 146097)%Z in
  let yoe := ((doe - doe / 1460 + doe / 36524 - doe / 146096) / 365)%Z in
  let doy := (doe - (365 * yoe + yoe / 4 - yoe / 100))%Z in
  let mp := ((5 * doy + 2) / 153)%Z in
  let d := (doy - (153 * mp + 2) / 5 + 1)%Z in
  let m := (if mp <? 10 then mp + 3 else mp - 9)%Z in
  let y := (yoe + era * 400 + (if m <=? 2 then 1 else 0))%Z in
  (y, m, d).

Definition digit_char (d : Z) : ascii := byte (48 + Z.to_nat d).

(** The [width] lowest decimal digits of [n >= 0], zero padded. *)
Fixpoint pad (width : nat) (n : Z) : string :=
  match width with
  | O => ""
  | S w => pad w (n / 10) ++ String (digit_char (n mod 10)) ""
  end.

(** The date part of [toISOString]: [YYYY-MM-DD], with a sign and six
    digits for years outside 0..9999. *)
Definition toISODate (ms : Z) : string :=
  let '(y, m, d) := civil_from_days (ms / 86400000) in
  let year :=
    if ((0 <=? y) && (y <=? 9999))%Z then pad 4 y
    else if (y <? 0)%Z then "-" ++ pad 6 (- y)
    else "+" ++ pad 6 y in
  year ++ "-" ++ pad 2 m ++ "-" ++ pad 2 d.

Definition week_ms : Z := (7 * 24 * 3600 * 1000)%Z.

Definition latest_delivery_date_of (now : Z) (p : string) : value :=
  if includes p "semana" || includes p "una semana"
     || includes p "dentro de una semana"
  then VString (toISODate (now + week_ms)%Z)
  else VNull.

(** ** Keywords
    [/auricular|auriculares|celular|notebook|monitor|zapatilla|zapatillas|televisor|tv/] *)

Definition keyword_alternatives : list string :=
  ["auricular"; "auriculares"; "celular"; "notebook"; "monitor";
   "zapatilla"; "zapatillas"; "televisor"; "tv"].

Definition keyword_at (s : string) : option string :=
  find (fun w => String.prefix w s) keyword_alternatives.

(** [p.match(...)?.[0]]: the leftmost match, alternatives in order. *)
Fixpoint keywordMatch (s : string) : option string :=
  match keyword_at s with
  | Some w => Some w
  | None =>
    match s with
    | EmptyString => None
    | String _ r => keywordMatch r
    end
  end.

Definition keywords_of (category : option string) (p : string) : string :=
  (match category with Some c => c | None => "" end)
  ++ " " ++ (match keywordMatch p with Some w => w | None => "" end).

Definition weight (num den : positive) : value :=
  VNumber (Num (Zpos num # den)).

Definition priority_weights_of (p : string) (latest_delivery_date : value) : value :=
  VObject
    [ ("price",
       if includes p "barato" || includes p "lo mas barato"
       then weight 7 10 else weight 4 10);
      ("delivery_time",
       if includes p "rápido" || includes p "entrega rápida"
          || truthy latest_delivery_date
       then weight 3 10 else weight 15 100);
      ("reviews",
       if includes p "reseñas" || includes p "opiniones"
       then weight 25 100 else weight 1 10);
      ("seller_reputation", weight 5 100) ].

Definition string_or_null (s : string) : value :=
  or_else (VString s) VNull.

(** [heuristicParse(prompt)], with [now] the value [Date.now()] has when
    the function runs.  The object literal it returns is built key by
    key, in the order of the source. *)
Definition heuristicParse (now : Z) (prompt : string) : value :=
  let p := toLowerCase prompt in
  let category := category_of p in
  let budget_max := budget_max_of p in
  let latest_delivery_date := latest_delivery_date_of now p in
  let keywords := keywords_of category p in
  let priority_weights := priority_weights_of p latest_delivery_date in
  VObject
    [ ("keywords", string_or_null (trim keywords));
      ("category", match category with Some c => string_or_null c | None => VNull end);
      ("must_have", VArray []);
      ("nice_to_have", VArray []);
      ("avoid", VArray []);
      ("budget_min", VNull);
      ("budget_max", budget_max);
      ("latest_delivery_date", latest_delivery_date);
      ("condition_preference", VNull);
      ("priority_weights", priority_weights);
      ("extra_instructions", VString prompt) ].

End Heuristic.

(* ================================================================== *)
(** * Enrichment, scoring and sorting *)
(* ================================================================== *)

Module Scorer.
Import JS.

(** One element of the marketplace's [results] array.  [item_price] is a
    JSON number, or [None] when the field is [null] or missing; the
    shipping and seller blocks are kept as the raw values they are. *)
Record RawItem : Type := {
  item_id : value;
  item_title : value;
  item_price : option Q;
  currency_id : value;
  item_thumbnail : value;
  item_permalink : value;
  item_condition : value;
  shipping : value;
  item_seller : value
}.

Record Seller : Type := {
  seller_id : value;
  nickname : value;
  registration_date : value;
  seller_permalink : value
}.

(** An enriched result.  [score] is [None] until the scoring loop has
    assigned the property. *)
Record Result : Type := {
  id : value;
  title : value;
  price : option Q;
  currency : value;
  thumbnail : value;
  permalink : value;
  condition : value;
  free_shipping : value;
  seller : Seller;
  raw : RawItem;
  score : option number
}.

Definition set_score (r : Result) (s : number) : Result :=
  {| id := id r; title := title r; price := price r; currency := currency r;
     thumbnail := thumbnail r; permalink := permalink r;
     condition := condition r; free_shipping := free_shipping r;
     seller := seller r; raw := raw r; score := Some s |}.

(** The object literal built for each item, [sellerInfo] being the parsed
    seller lookup or [null]. *)
Definition enrich (item : RawItem) (sellerInfo : value) : Result :=
  {| id := item_id item;
     title := item_title item;
     price := item_price item;
     currency := currency_id item;
     thumbnail := item_thumbnail item;
     permalink := item_permalink item;
     condition := item_condition item;
     free_shipping :=
       or_else (opt_prop (shipping item) "free_shipping") (VBool false);
     seller :=
       if truthy sellerInfo
       then {| seller_id := prop sellerInfo "id";
               nickname := prop sellerInfo "nickname";
               registration_date := prop sellerInfo "registration_date";
               seller_permalink := prop sellerInfo "permalink" |}
       else {| seller_id := or_else (opt_prop (item_seller item) "id") VNull;
               nickname := VUndefined;
               registration_date := VUndefined;
               seller_permalink := VUndefined |};
     raw := item;
     score := None |}.

(** [price || d] *)
Definition price_or (d : Q) (price : option Q) : Q :=
  match price with
  | Some q => if isZero q then d else q
  | None => d
  end.

(** [results.map(r => r.price || 0).filter(Boolean)] *)
Definition prices (results : list Result) : list Q :=
  filter (fun q => negb (isZero q)) (map (fun r => price_or 0 (price r)) results).

(** [prices.length ? Math.min(...prices) : 0] *)
Definition minPrice (results : list Result) : Q :=
  match prices results with
  | [] => 0
  | x :: xs => fold_left Qmin xs x
  end.

(** [prices.length ? Math.max(...prices) : minPrice || 1] *)
Definition maxPrice (results : list Result) : Q :=
  match prices results with
  | [] => if isZero (minPrice results) then 1 else minPrice results
  | x :: xs => fold_left Qmax xs x
  end.

Definition scorePrice (minPrice maxPrice : Q) (r : Result) : Q :=
  let p := price_or maxPrice (price r) in
  if Qeq_bool maxPrice minPrice then 1
  else 1 - ((p - minPrice) / (maxPrice - minPrice)).

Definition scoreShipping (r : Result) : Q :=
  if truthy (free_shipping r) then 1 else 0.45.

(** The clock and the date parser the scoring loop reads:
    [new Date().getFullYear()] and [new Date(d).getFullYear()], the
    latter [NaN] on an invalid date. *)
Record Calendar : Type := {
  currentYear : Z;
  fullYearOf : value -> number
}.

Definition scoreSeller (cal : Calendar) (r : Result) : number :=
  if truthy (registration_date (seller r)) then
    let year := fullYearOf cal (registration_date (seller r)) in
    let age := nsub (ofZ (currentYear cal)) year in
    Math_min (Num 1) (nadd (Num 0.4) (nmul (Num 0.06) (Math_min age (Num 10))))
  else Num 0.5.

(** [Math.round((0.6 * scorePrice + 0.2 * scoreShipping + 0.2 * scoreSeller) * 100)] *)
Definition compositeScore (cal : Calendar) (minPrice maxPrice : Q) (r : Result) : number :=
  Math_round
    (nmul (nadd (nadd (nmul (Num 0.6) (Num (scorePrice minPrice maxPrice r)))
                      (nmul (Num 0.2) (Num (scoreShipping r))))
                (nmul (Num 0.2) (scoreSeller cal r)))
          (Num 100)).

(** The scoring loop: [results.forEach(r => { ...; r.score = ... })],
    with the minimum and maximum price computed before it. *)
Definition scoreAll (cal : Calendar) (results : list Result) : list Result :=
  let lo := minPrice results in
  let hi := maxPrice results in
  map (fun r => set_score r (compositeScore cal lo hi r)) results.

(** [r.score || 0]: an unset, [NaN] or zero score counts as 0. *)
Definition score_or_0 (r : Result) : Q :=
  match score r with
  | Some (Num q) => if isZero q then 0 else q
  | _ => 0
  end.

(** The comparator [(a, b) => (b.score || 0) - (a.score || 0)]. *)
Definition byScoreDesc (a b : Result) : Q := score_or_0 b - score_or_0 a.

(** [Array.prototype.sort] with a comparator: a stable sort, [a] before
    [b] when [cmp a b < 0] and in their previous order when it is 0.
    Insertion is one way to get there; the outcome does not depend on
    the algorithm (see [stable_sorted_unique]). *)
Fixpoint insert {A : Type} (cmp : A -> A -> Q) (x : A) (l : list A) : list A :=
  match l with
  | [] => [x]
  | y :: l' => if Qle_bool (cmp x y) 0 then x :: l else y :: insert cmp x l'
  end.

Definition Array_sort {A : Type} (cmp : A -> A -> Q) (l : list A) : list A :=
  fold_right (insert cmp) [] l.

(** Steps 4 and 5 of the handler. *)
Definition scoreAndSort (cal : Calendar) (results : list Result) : list Result :=
  Array_sort byScoreDesc (scoreAll cal results).

End Scorer.

(* ================================================================== *)
(** * The request handler *)
(* ================================================================== *)

Module Handler.
Import JS Heuristic Scorer.

(** The result of a computation that may throw. *)
Inductive outcome (A : Type) : Type :=
| Return (a : A)
| Throw (message : string).
Arguments Return {A} a.
Arguments Throw {A} message.

(** What [fetch] on the chat-completions endpoint does: it rejects, or
    yields a response whose body parses as JSON ([Some]) or does not. *)
Inductive LlmReply : Type :=
| LlmUnreachable (message : string)
| LlmResponse (ok : bool) (status : Z) (json : option value).

(** The marketplace search: [json] is [None] when the body is not JSON,
    [Some None] when its [results] is not an array. *)
Inductive SearchReply : Type :=
| SearchUnreachable (message : string)
| SearchResponse (ok : bool) (status : Z) (text : string)
                 (json : option (option (list RawItem))).

Inductive UserReply : Type :=
| UserUnreachable
| UserResponse (ok : bool) (json : option value).

(** Everything the handler reads from outside.  The search is keyed by
    the query before URL encoding; the site is [MLA] for every locale.
    The current year is read once per scoring pass. *)
Record World : Type := {
  OPENAI_API_KEY : option string;
  openai : string -> LlmReply;
  JSON_parse : string -> option value;
  Date_now : Z;
  calendar : Calendar;
  ml_search : value -> SearchReply;
  ml_user : value -> UserReply
}.

Record Body : Type := {
  prompt : option string;
  locale : option string
}.

Record Request : Type := {
  method : string;
  body : outcome Body
}.

Inductive response : Type :=
| Ended (status : Z)
| JsonError (status : Z) (error : string) (detail : option string)
| JsonOk (criteria : value) (results : list Result) (repregunta : value).

(** The message of the engine's [TypeError]; its wording is the
    engine's. *)
Definition type_error : string := "TypeError".

Definition status_text (status : Z) : string :=
  DecimalString.NilZero.string_of_int (Z.to_int status).

(** ** The language-model path *)

(** The suffix of [s] that starts at its first opening brace. *)
Fixpoint from_first_brace (s : string) : option string :=
  match s with
  | EmptyString => None
  | String c r => if (c =? "{")%char then Some s else from_first_brace r
  end.

(** The prefix of [s] that ends at its last closing brace. *)
Fixpoint upto_last_brace (s : string) : option string :=
  match s with
  | EmptyString => None
  | String c r =>
    match upto_last_brace r with
    | Some t => Some (String c t)
    | None => if (c =? "}")%char then Some (String c "") else None
    end
  end.

(** [text.match(/\{[\s\S]*\}/)]: from the first opening brace to the
    last closing brace after it. *)
Definition braces_match (text : string) : option string :=
  match from_first_brace text with
  | Some s => upto_last_brace s
  | None => None
  end.

Definition parsePromptWithOpenAI (w : World) (prompt : string) : outcome value :=
  match openai w prompt with
  | LlmUnreachable message => Throw message
  | LlmResponse ok status json =>
    if negb ok then Throw ("OpenAI error " ++ status_text status)
    else
      match json with
      | None => Throw "invalid json response body"
      | Some j =>
        if nullish j then Throw type_error
        else
          let content :=
            opt_prop (opt_prop (opt_first (prop j "choices")) "message") "content" in
          match or_else content (VString "{}") with
          | VString text =>
            let jsonText :=
              match braces_match text with
              | Some m => m
              | None => text
              end in
            match JSON_parse w jsonText with
            | Some criteria => Return criteria
            | None => Throw "OpenAI returned non-JSON or malformed JSON"
            end
          | _ => Throw type_error
          end
      end
  end.

Definition key_configured (w : World) : bool :=
  match OPENAI_API_KEY w with
  | Some k => negb (k =? "")
  | None => false
  end.

(** Step 1 of the handler: the language model when a key is configured,
    the heuristic when there is none or when the model path throws. *)
Definition extract (w : World) (prompt : string) : value :=
  if key_configured w then
    match parsePromptWithOpenAI w prompt with
    | Return criteria => criteria
    | Throw _ => heuristicParse (Date_now w) prompt
    end
  else heuristicParse (Date_now w) prompt.

(** ** Search, enrichment, ranking *)

Definition sellerInfo_of (w : World) (item : RawItem) : value :=
  if truthy (item_seller item) && truthy (prop (item_seller item) "id") then
    match ml_user w (prop (item_seller item) "id") with
    | UserResponse true (Some info) => info
    | _ => VNull
    end
  else VNull.

Definition enrichAll (w : World) (items : list RawItem) : list Result :=
  map (fun item => enrich item (sellerInfo_of w item)) items.

Definition follow_up : string :=
  "¿Quieres priorizar envío rápido aunque cueste un poco más?".

Definition repregunta_of (criteria : value) (results : list Result) : value :=
  if negb (truthy (prop criteria "latest_delivery_date"))
     && existsb (fun r => strictly_false (free_shipping r)) results
  then VString follow_up
  else VNull.

Definition server_error (message : string) : response :=
  JsonError 500 "server error" (Some message).

(** [criteria.keywords || criteria.category || prompt] *)
Definition query_of (criteria : value) (prompt : string) : value :=
  or_else (or_else (prop criteria "keywords") (prop criteria "category"))
          (VString prompt).

(** Steps 2 to 5, from the criteria to the response. *)
Definition search_and_rank (w : World) (prompt : string) (criteria : value) : response :=
  if nullish criteria then server_error type_error
  else
    match ml_search w (query_of criteria prompt) with
    | SearchUnreachable message => server_error message
    | SearchResponse ok status txt json =>
      if negb ok then JsonError 500 "MercadoLibre search error" (Some txt)
      else
        match json with
        | None => server_error "invalid json response body"
        | Some found =>
          let items := match found with Some l => l | None => [] end in
          let results := scoreAndSort (calendar w) (enrichAll w items) in
          JsonOk criteria results (repregunta_of criteria results)
        end
    end.

(** [(body.prompt || '').toString().trim()] *)
Definition prompt_of (b : Body) : string :=
  trim (match prompt b with Some s => s | None => "" end).

Definition handler (w : World) (req : Request) : response :=
  if method req =? "OPTIONS" then Ended 200
  else if negb (method req =? "POST") then JsonError 405 "Method not allowed" None
  else
    match body req with
    | Throw message => server_error message
    | Return b =>
      let prompt := prompt_of b in
      if prompt =? "" then JsonError 400 "prompt is required" None
      else search_and_rank w prompt (extract w prompt)
    end.

(** The same world with the credential removed. *)
Definition without_key (w : World) : World :=
  {| OPENAI_API_KEY := None;
     openai := openai w;
     JSON_parse := JSON_parse w;
     Date_now := Date_now w;
     calendar := calendar w;
     ml_search := ml_search w;
     ml_user := ml_user w |}.

End Handler.

(* ================================================================== *)
(** * Predicates of the specification and sample data *)
(* ================================================================== *)

Module Spec.
Import JS Heuristic Scorer Handler.

(** [v] is the number [q]. *)
Definition is_number (v : value) (q : Q) : Prop :=
  match v with
  | VNumber (Num x) => x == q
  | _ => False
  end.

(** ** Well-formed criteria *)

Definition nullable (P : value -> Prop) (v : value) : Prop := v = VNull \/ P v.

Definition nonempty_string (v : value) : Prop :=
  exists s, v = VString s /\ s <> "".

Definition one_of (words : list string) (v : value) : Prop :=
  exists w, In w words /\ v = VString w.

Definition integer_between (lo hi : Z) (v : value) : Prop :=
  exists z, v = VNumber (ofZ z) /\ (lo <= z <= hi)%Z.

Definition is_weight (v : value) : Prop :=
  exists q, v = VNumber (Num q) /\ 0 <= q <= 1.

(** The Criteria record of the data model, as the object the handler
    passes on: every field present, lists, nullable integers, a nullable
    date string, four weights, and the prompt as extra instructions. *)
Definition well_formed_criteria (prompt : string) (c : value) : Prop :=
  exists keywords category budget_max latest_delivery_date
         price delivery_time reviews seller_reputation,
    c = VObject
          [ ("keywords", keywords);
            ("category", category);
            ("must_have", VArray []);
            ("nice_to_have", VArray []);
            ("avoid", VArray []);
            ("budget_min", VNull);
            ("budget_max", budget_max);
            ("latest_delivery_date", latest_delivery_date);
            ("condition_preference", VNull);
            ("priority_weights",
             VObject [ ("price", price);
                       ("delivery_time", delivery_time);
                       ("reviews", reviews);
                       ("seller_reputation", seller_reputation) ]);
            ("extra_instructions", VString prompt) ]
    /\ nullable nonempty_string keywords
    /\ nullable (one_of categories) category
    /\ nullable (integer_between 0 999999) budget_max
    /\ nullable nonempty_string latest_delivery_date
    /\ is_weight price /\ is_weight delivery_time
    /\ is_weight reviews /\ is_weight seller_reputation.



(** ** Order *)

(** [a] may stand before [b] in a list in descending order of [key]. *)
Definition desc {A : Type} (key : A -> Q) (a b : A) : Prop := key b <= key a.

Definition has_key {A : Type} (key : A -> Q) (k : Q) (a : A) : bool :=
  Qeq_bool (key a) k.

End Spec.

Module Samples.
Import JS Heuristic Scorer Handler.

(** A date parser for ISO 8601 strings: the year is the leading four
    digits; anything else is an invalid date. *)
Definition iso_year (d : value) : number :=
  match d with
  | VString s =>
    let y := digits_upto 4 s in
    if (String.length y =? 4)%nat then ofZ (parseInt y) else NaN
  | _ => NaN
  end.

Definition calendar_of (year : Z) : Calendar :=
  {| currentYear := year; fullYearOf := iso_year |}.

Definition item (price : option Q) (shipping seller : value) : RawItem :=
  {| item_id := VUndefined; item_title := VUndefined; item_price := price;
     currency_id := VString "ARS"; item_thumbnail := VUndefined;
     item_permalink := VUndefined; item_condition := VString "new";
     shipping := shipping; item_seller := seller |}.

Definition free (b : bool) : value := VObject [("free_shipping", VBool b)].

Definition registered (date : string) : value :=
  VObject [("id", VNumber (Num 7)); ("registration_date", VString date)].



Definition priced (q : Q) (b : bool) : Result :=
  enrich (item (Some q) (free b) VNull) VNull.

Definition since_2020 : Result :=
  enrich (item (Some 150) (free false) VNull) (registered "2020-03-04T10:00:00.000-04:00").

Definition batch : list Result := [priced 100 true; priced 200 false; since_2020].

(** A marketplace with three listings, two of them by a seller registered
    in 2020, and a language model that answers [reply]. *)
Definition listings : list RawItem :=
  [ item (Some 200) (free false) (VObject [("id", VNumber (Num 7))]);
    item (Some 100) (free true) VNull;
    item (Some 150) (free false) (VObject [("id", VNumber (Num 7))]) ].

Definition world_with (key : option string) (reply : LlmReply)
    (parse : string -> option value) : World :=
  {| OPENAI_API_KEY := key;
     openai := fun _ => reply;
     JSON_parse := parse;
     Date_now := 1700000000000;
     calendar := calendar_of 2026;
     ml_search := fun _ => SearchResponse true 200 "" (Some (Some listings));
     ml_user := fun _ =>
       UserResponse true (Some (registered "2020-03-04T10:00:00.000-04:00")) |}.

(** No credential: the heuristic path. *)
Definition offline : World :=
  world_with None (LlmUnreachable "no network") (fun _ => None).

(** Seen from 2026: a result registered in 2041 that is the most
    expensive of its batch and ships at a cost, and one whose
    registration date is not a date. *)
Definition since_2041 : Result :=
  enrich (item (Some 200) (free false) VNull) (registered "2041-01-01T12:00:00.000Z").

Definition undatable : Result :=
  enrich (item (Some 100) (free true) VNull) (registered "ayer").

Definition post (text : string) : Request :=
  {| method := "POST";
     body := Return {| prompt := Some text; locale := None |} |}.

(** A chat-completions body whose first message holds [content]. *)
Definition completion (content : string) : value :=
  VObject [("choices",
            VArray [VObject [("message",
                              VObject [("role", VString "assistant");
                                       ("content", VString content)])]])].

(** An object whose delivery date is the empty string, and its JSON
    text. *)
Definition undated : value := VObject [("latest_delivery_date", VString "")].

Definition quoted (s : string) : string :=
  String (byte 34) s ++ String (byte 34) "".

Definition undated_text : string :=
  "{" ++ quoted "latest_delivery_date" ++ ":" ++ quoted "" ++ "}".

(** [JSON.parse] on the few texts the samples use; anything else here is
    not JSON. *)
Definition parse (text : string) : option value :=
  if text =? "null" then Some VNull
  else if text =? "{}" then Some (VObject [])
  else if text =? undated_text then Some undated
  else None.

Definition answering (content : string) : World :=
  world_with (Some "sk-test") (LlmResponse true 200 (Some (completion content))) parse.


(** The model answers with the undated object, wrapped in prose. *)
Definition terse : World := answering ("Respuesta: " ++ undated_text).

(** The service is down. *)
Definition unavailable : World :=
  world_with (Some "sk-test") (LlmResponse false 503 None) parse.

(** A listing whose free-shipping flag is the number 1. *)
Definition flagged_1 : RawItem :=
  item (Some 100) (VObject [("free_shipping", VNumber (Num 1))]) VNull.

End Samples.

(* ================================================================== *)
(** * Properties of the scorer *)
(* ================================================================== *)

Module ScorerFacts.
Import JS Scorer Spec.

Local Open Scope Q_scope.

(** ** Minimum and maximum of the price list *)

Lemma fold_min_le_init (xs : list Q) (x : Q) : fold_left Qmin xs x <= x.
Proof.
  revert x; induction xs as [|y ys IH]; intro x; simpl.
  - apply Qle_refl.
  - eapply Qle_trans; [apply IH | apply Q.le_min_l].
Qed.

Lemma fold_min_le_In (xs : list Q) (x y : Q) :
  In y xs -> fold_left Qmin xs x <= y.
Proof.
  revert x; induction xs as [|z zs IH]; intros x Hin; simpl in *.
  - contradiction.
  - destruct Hin as [-> | Hin].
    + eapply Qle_trans; [apply fold_min_le_init | apply Q.le_min_r].
    + now apply IH.
Qed.

Lemma fold_max_ge_init (xs : list Q) (x : Q) : x <= fold_left Qmax xs x.
Proof.
  revert x; induction xs as [|y ys IH]; intro x; simpl.
  - apply Qle_refl.
  - eapply Qle_trans; [apply Q.le_max_l | apply IH].
Qed.

Lemma fold_max_ge_In (xs : list Q) (x y : Q) :
  In y xs -> y <= fold_left Qmax xs x.
Proof.
  revert x; induction xs as [|z zs IH]; intros x Hin; simpl in *.
  - contradiction.
  - destruct Hin as [-> | Hin].
    + eapply Qle_trans; [apply Q.le_max_r | apply fold_max_ge_init].
    + now apply IH.
Qed.

Lemma Qmin_cases (x y : Q) : Qmin x y = x \/ Qmin x y = y.
Proof. unfold Qmin, GenericMinMax.gmin. destruct (x ?= y); auto. Qed.

Lemma Qmax_cases (x y : Q) : Qmax x y = x \/ Qmax x y = y.
Proof. unfold Qmax, GenericMinMax.gmax. destruct (x ?= y); auto. Qed.

Lemma fold_min_In (xs : list Q) (x : Q) : In (fold_left Qmin xs x) (x :: xs).
Proof.
  revert x; induction xs as [|y ys IH]; intro x; simpl.
  - now left.
  - destruct (IH (Qmin x y)) as [H | H].
    + rewrite <- H. destruct (Qmin_cases x y) as [E | E]; rewrite E; auto.
    + auto.
Qed.

Lemma fold_max_In (xs : list Q) (x : Q) : In (fold_left Qmax xs x) (x :: xs).
Proof.
  revert x; induction xs as [|y ys IH]; intro x; simpl.
  - now left.
  - destruct (IH (Qmax x y)) as [H | H].
    + rewrite <- H. destruct (Qmax_cases x y) as [E | E]; rewrite E; auto.
    + auto.
Qed.

Lemma isZero_true (q : Q) : isZero q = true <-> q == 0.
Proof. unfold isZero. apply Qeq_bool_iff. Qed.

Lemma isZero_false (q : Q) : isZero q = false <-> ~ q == 0.
Proof.
  rewrite <- isZero_true. destruct (isZero q); split; intro H;
    try discriminate; try reflexivity; try (intro; discriminate).
  exfalso; now apply H.
Qed.


Lemma minPrice_le_In (results : list Result) (q : Q) :
  In q (prices results) -> minPrice results <= q.
Proof.
  unfold minPrice. destruct (prices results) as [|x xs]; simpl; [contradiction|].
  intros [<- | H]; [apply fold_min_le_init | now apply fold_min_le_In].
Qed.

Lemma maxPrice_ge_In (results : list Result) (q : Q) :
  In q (prices results) -> q <= maxPrice results.
Proof.
  unfold maxPrice. destruct (prices results) as [|x xs]; simpl; [contradiction|].
  intros [<- | H]; [apply fold_max_ge_init | now apply fold_max_ge_In].
Qed.

Lemma minPrice_le_maxPrice (results : list Result) :
  minPrice results <= maxPrice results.
Proof.
  destruct (prices results) as [|x xs] eqn:E.
  - unfold maxPrice, minPrice. rewrite E. simpl. discriminate.
  - assert (Hx : In x (prices results)) by (rewrite E; now left).
    eapply Qle_trans; [apply minPrice_le_In | apply maxPrice_ge_In]; eassumption.
Qed.


(** ** The three component scores *)





(** ** The sort *)

Section SortByKey.
Context {A : Type} (key : A -> Q).

(** The comparator of a descending sort by [key]. *)
Let cmp (a b : A) : Q := key b - key a.

Lemma insert_before (x y : A) (l : list A) :
  desc key x y -> insert cmp x (y :: l) = x :: y :: l.
Proof.
  unfold desc, cmp. intro H. simpl.
  destruct (Qle_bool (key y - key x) 0) eqn:E; [reflexivity|].
  assert (Hle : key y - key x <= 0) by lra.
  apply Qle_bool_iff in Hle. congruence.
Qed.

Lemma insert_after (x y : A) (l : list A) :
  key x < key y -> insert cmp x (y :: l) = y :: insert cmp x l.
Proof.
  unfold cmp. intro H. simpl.
  destruct (Qle_bool (key y - key x) 0) eqn:E; [|reflexivity].
  apply Qle_bool_iff in E. lra.
Qed.

Lemma insert_cases (x y : A) (l : list A) :
  (desc key x y /\ insert cmp x (y :: l) = x :: y :: l)
  \/ (key x < key y /\ insert cmp x (y :: l) = y :: insert cmp x l).
Proof.
  destruct (Qlt_le_dec (key x) (key y)) as [H | H].
  - right. split; [assumption | now apply insert_after].
  - left. split; [assumption | now apply insert_before].
Qed.

Lemma insert_perm (x : A) (l : list A) : Permutation (insert cmp x l) (x :: l).
Proof.
  induction l as [|y l IH]; [reflexivity|].
  destruct (insert_cases x y l) as [[_ E] | [_ E]]; rewrite E.
  - reflexivity.
  - rewrite IH. apply perm_swap.
Qed.

Lemma sort_perm (l : list A) : Permutation (Array_sort cmp l) l.
Proof.
  induction l as [|x l IH]; simpl; [reflexivity|].
  rewrite insert_perm. now constructor.
Qed.

Lemma insert_sorted (x : A) (l : list A) :
  StronglySorted (desc key) l -> StronglySorted (desc key) (insert cmp x l).
Proof.
  induction 1 as [|y l Hs IH Hall]; [repeat constructor|].
  destruct (insert_cases x y l) as [[Hd E] | [Hlt E]]; rewrite E.
  - constructor; [now constructor|].
    constructor; [assumption|].
    eapply Forall_impl; [|exact Hall].
    unfold desc in *. intros a Ha. lra.
  - constructor; [assumption|].
    rewrite (Forall_forall (desc key y)). intros a Ha.
    apply (Permutation_in _ (insert_perm x l)) in Ha.
    destruct Ha as [<- | Ha].
    + unfold desc. lra.
    + rewrite Forall_forall in Hall. now apply Hall.
Qed.

Lemma sort_sorted (l : list A) : StronglySorted (desc key) (Array_sort cmp l).
Proof.
  induction l as [|x l IH]; simpl; [constructor | now apply insert_sorted].
Qed.

(** Insertion never moves [x] past an element with the same key. *)
Lemma insert_filter (k : Q) (x : A) (l : list A) :
  filter (has_key key k) (insert cmp x l) = filter (has_key key k) (x :: l).
Proof.
  induction l as [|y l IH]; [reflexivity|].
  destruct (insert_cases x y l) as [[_ E] | [Hlt E]]; rewrite E; [reflexivity|].
  simpl in *. rewrite IH. unfold has_key.
  destruct (Qeq_bool (key x) k) eqn:Ex, (Qeq_bool (key y) k) eqn:Ey;
    try reflexivity.
  apply Qeq_bool_iff in Ex, Ey. lra.
Qed.

Lemma sort_stable (k : Q) (l : list A) :
  filter (has_key key k) (Array_sort cmp l) = filter (has_key key k) l.
Proof.
  induction l as [|x l IH]; [reflexivity|].
  simpl Array_sort. rewrite insert_filter. simpl. now rewrite IH.
Qed.

Lemma sort_of_sorted (l : list A) :
  StronglySorted (desc key) l -> Array_sort cmp l = l.
Proof.
  induction 1 as [|x l Hs IH Hall]; [reflexivity|].
  simpl. rewrite IH. destruct l as [|y l]; [reflexivity|].
  apply insert_before. now inversion Hall.
Qed.

Lemma has_key_comp (k k' : Q) (a : A) : k == k' -> has_key key k a = has_key key k' a.
Proof.
  intro H. unfold has_key.
  destruct (Qeq_bool (key a) k) eqn:E, (Qeq_bool (key a) k') eqn:E';
    try reflexivity.
  - apply Qeq_bool_iff in E. apply Qeq_bool_neq in E'. exfalso. apply E'.
    now rewrite E.
  - apply Qeq_bool_iff in E'. apply Qeq_bool_neq in E. exfalso. apply E.
    now rewrite E'.
Qed.

Lemma has_key_self (a : A) : has_key key (key a) a = true.
Proof. unfold has_key. apply Qeq_bool_iff. reflexivity. Qed.

Lemma sorted_head_max (x : A) (l : list A) (a : A) :
  StronglySorted (desc key) (x :: l) -> In a (x :: l) -> key a <= key x.
Proof.
  intros Hs [<- | Hin]; [apply Qle_refl|].
  inversion Hs as [|? ? _ Hall]; subst.
  rewrite Forall_forall in Hall. now apply Hall.
Qed.

Lemma In_of_filter (k : Q) (a : A) (l l' : list A) :
  filter (has_key key k) l = filter (has_key key k) l' ->
  In a l -> has_key key k a = true -> In a l'.
Proof.
  intros E Hin Hk.
  assert (H : In a (filter (has_key key k) l)) by (apply filter_In; auto).
  rewrite E in H. now apply filter_In in H.
Qed.

(** A sorted list is determined by the order of its elements of equal
    key: whatever stable algorithm sorts the array, the outcome is the
    same. *)
Lemma stable_sorted_unique (l l' : list A) :
  StronglySorted (desc key) l -> StronglySorted (desc key) l' ->
  (forall k, filter (has_key key k) l = filter (has_key key k) l') ->
  l = l'.
Proof.
  revert l'. induction l as [|x l IH]; intros [|y l'] Hs Hs' Hf.
  - reflexivity.
  - specialize (Hf (key y)). simpl in Hf. rewrite has_key_self in Hf.
    discriminate Hf.
  - specialize (Hf (key x)). simpl in Hf. rewrite has_key_self in Hf.
    discriminate Hf.
  - assert (Hxy : key x <= key y).
    { apply (sorted_head_max y l' x Hs').
      apply (In_of_filter (key x) x (x :: l) (y :: l') (Hf (key x)));
        [now left | apply has_key_self]. }
    assert (Hyx : key y <= key x).
    { apply (sorted_head_max x l y Hs).
      apply (In_of_filter (key y) y (y :: l') (x :: l) (eq_sym (Hf (key y))));
        [now left | apply has_key_self]. }
    assert (Hk : key y == key x) by now apply Qle_antisym.
    pose proof (Hf (key x)) as Hx. simpl in Hx.
    rewrite has_key_self, (has_key_comp (key x) (key y) y), has_key_self in Hx
      by now symmetry.
    injection Hx as <- Hx. f_equal.
    apply IH.
    + now inversion Hs.
    + now inversion Hs'.
    + intro k. specialize (Hf k). simpl in Hf.
      destruct (has_key key k x); [now injection Hf | exact Hf].
Qed.

Lemma sort_unique (l sorted : list A) :
  StronglySorted (desc key) sorted ->
  (forall k, filter (has_key key k) sorted = filter (has_key key k) l) ->
  sorted = Array_sort cmp l.
Proof.
  intros Hs Hf. apply stable_sorted_unique; [assumption | apply sort_sorted|].
  intro k. now rewrite Hf, sort_stable.
Qed.

End SortByKey.

Lemma byScoreDesc_sort (l : list Result) :
  Array_sort byScoreDesc l
  = Array_sort (fun a b => score_or_0 b - score_or_0 a) l.
Proof. reflexivity. Qed.

(** ** Scoring twice *)

Lemma score_set_score (r : Result) (s : number) : score (set_score r s) = Some s.
Proof. reflexivity. Qed.

Lemma set_score_twice (r : Result) (s t : number) :
  set_score (set_score r s) t = set_score r t.
Proof. reflexivity. Qed.

Lemma prices_scoreAll (cal : Calendar) (results : list Result) :
  prices (scoreAll cal results) = prices results.
Proof.
  unfold prices, scoreAll. rewrite map_map. reflexivity.
Qed.

Lemma Permutation_filter_Q (f : Q -> bool) (l l' : list Q) :
  Permutation l l' -> Permutation (filter f l) (filter f l').
Proof.
  induction 1 as [| x l l' _ IH | x y l | l l' l'' _ IH1 _ IH2]; simpl.
  - constructor.
  - destruct (f x); [now constructor | assumption].
  - destruct (f x), (f y); try reflexivity. apply perm_swap.
  - now transitivity (filter f l').
Qed.

Lemma prices_perm (l l' : list Result) :
  Permutation l l' -> Permutation (prices l) (prices l').
Proof.
  intro H. unfold prices. apply Permutation_filter_Q. now apply Permutation_map.
Qed.

Lemma minPrice_perm (l l' : list Result) :
  Permutation l l' -> minPrice l == minPrice l'.
Proof.
  intro H. pose proof (prices_perm l l' H) as Hp.
  pose proof (minPrice_le_In l) as Hl. pose proof (minPrice_le_In l') as Hl'.
  unfold minPrice in *.
  destruct (prices l) as [|x xs] eqn:E, (prices l') as [|y ys] eqn:E'.
  - reflexivity.
  - apply Permutation_nil in Hp. discriminate.
  - symmetry in Hp. apply Permutation_nil in Hp. discriminate.
  - apply Qle_antisym.
    + apply Hl. apply (Permutation_in _ (Permutation_sym Hp)). apply fold_min_In.
    + apply Hl'. apply (Permutation_in _ Hp). apply fold_min_In.
Qed.

Lemma maxPrice_perm (l l' : list Result) :
  Permutation l l' -> maxPrice l == maxPrice l'.
Proof.
  intro H. pose proof (prices_perm l l' H) as Hp.
  pose proof (maxPrice_ge_In l) as Hl. pose proof (maxPrice_ge_In l') as Hl'.
  unfold maxPrice, minPrice in *.
  destruct (prices l) as [|x xs] eqn:E, (prices l') as [|y ys] eqn:E'.
  - reflexivity.
  - apply Permutation_nil in Hp. discriminate.
  - symmetry in Hp. apply Permutation_nil in Hp. discriminate.
  - apply Qle_antisym.
    + apply Hl'. apply (Permutation_in _ Hp). apply fold_max_In.
    + apply Hl. apply (Permutation_in _ (Permutation_sym Hp)). apply fold_max_In.
Qed.

Lemma price_or_comp (d d' : Q) (p : option Q) :
  d == d' -> price_or d p == price_or d' p.
Proof.
  intro H. unfold price_or. destruct p as [q|]; [|assumption].
  destruct (isZero q); [assumption | reflexivity].
Qed.

Lemma scorePrice_comp (lo lo' hi hi' : Q) (r : Result) :
  lo == lo' -> hi == hi' -> scorePrice lo hi r == scorePrice lo' hi' r.
Proof.
  intros Hlo Hhi. unfold scorePrice.
  pose proof (price_or_comp hi hi' (price r) Hhi) as Hp.
  destruct (Qeq_bool hi lo) eqn:E, (Qeq_bool hi' lo') eqn:E'.
  - reflexivity.
  - apply Qeq_bool_iff in E. apply Qeq_bool_neq in E'.
    exfalso. apply E'. rewrite <- Hlo, <- Hhi. assumption.
  - apply Qeq_bool_iff in E'. apply Qeq_bool_neq in E.
    exfalso. apply E. rewrite Hlo, Hhi. assumption.
  - rewrite Hp, Hlo, Hhi. reflexivity.
Qed.

Lemma compositeScore_comp (cal : Calendar) (lo lo' hi hi' : Q) (r : Result) :
  lo == lo' -> hi == hi' ->
  compositeScore cal lo hi r = compositeScore cal lo' hi' r.
Proof.
  intros Hlo Hhi. unfold compositeScore.
  pose proof (scorePrice_comp lo lo' hi hi' r Hlo Hhi) as Hp.
  destruct (scoreSeller cal r) as [|s]; [reflexivity|].
  simpl. unfold round_half_up. do 2 f_equal.
  apply Qfloor_comp. rewrite Hp. reflexivity.
Qed.

Lemma compositeScore_set_score (cal : Calendar) (lo hi : Q) (r : Result) (s : number) :
  compositeScore cal lo hi (set_score r s) = compositeScore cal lo hi r.
Proof. reflexivity. Qed.

(** Scoring a reordering of an already scored batch changes nothing. *)
Lemma scoreAll_of_scored (cal : Calendar) (results l : list Result) :
  Permutation l (scoreAll cal results) -> scoreAll cal l = l.
Proof.
  intro Hperm. unfold scoreAll at 1.
  assert (Hlo : minPrice l == minPrice results).
  { rewrite (minPrice_perm _ _ Hperm). unfold minPrice.
    now rewrite prices_scoreAll. }
  assert (Hhi : maxPrice l == maxPrice results).
  { rewrite (maxPrice_perm _ _ Hperm). unfold maxPrice, minPrice.
    now rewrite prices_scoreAll. }
  rewrite <- (map_id l) at 2. apply map_ext_in. intros r Hr.
  apply (Permutation_in _ Hperm) in Hr. unfold scoreAll in Hr.
  apply in_map_iff in Hr. destruct Hr as (r0 & <- & _).
  rewrite compositeScore_set_score, set_score_twice.
  f_equal. now apply compositeScore_comp.
Qed.


End ScorerFacts.

(* ================================================================== *)
(** * Scores and price scores *)
(* ================================================================== *)

Module ScoreClaims.
Import JS Scorer Spec Samples ScorerFacts.

Local Open Scope Q_scope.




(** The bound of 14 years is the last one that works: a seller
    registered 15 years ahead can bring the score to -1. *)
Example score_of_a_registration_15_years_ahead :
  In (set_score since_2041 (Num (-1)))
     (scoreAll (calendar_of 2026) [priced 100 true; since_2041]).
Proof. right; left. reflexivity. Qed.

(** A registration date that does not parse gives the score [NaN]. *)
Example score_of_an_invalid_registration_date :
  scoreAll (calendar_of 2026) [undatable] = [set_score undatable NaN].
Proof. reflexivity. Qed.

(** ** Price scores *)








End ScoreClaims.

(* ================================================================== *)
(** * Ranking: determinism, order, idempotence *)
(* ================================================================== *)

Module RankingClaims.
Import JS Scorer Handler Spec Samples ScorerFacts.

Local Open Scope Q_scope.

(** What a successful response is made of. *)
Lemma handler_ok (w : World) (req : Request) (criteria : value)
    (results : list Result) (rep : value) :
  handler w req = JsonOk criteria results rep ->
  exists (b : Body) (status : Z) (txt : string) (found : option (list RawItem)),
    body req = Return b
    /\ criteria = extract w (prompt_of b)
    /\ ml_search w (query_of criteria (prompt_of b))
       = SearchResponse true status txt (Some found)
    /\ results = scoreAndSort (calendar w)
                   (enrichAll w (match found with Some l => l | None => [] end))
    /\ rep = repregunta_of criteria results.
Proof.
  unfold handler, search_and_rank, server_error.
  destruct (method req =? "OPTIONS")%string; [discriminate|].
  destruct (negb (method req =? "POST")%string); [discriminate|].
  destruct (body req) as [b | m]; [|discriminate].
  destruct (prompt_of b =? "")%string; [discriminate|].
  destruct (nullish (extract w (prompt_of b))); [discriminate|].
  destruct (ml_search w _) as [m | ok status txt json] eqn:Es; [discriminate|].
  destruct ok; simpl; [|discriminate].
  destruct json as [found|]; [|discriminate].
  intro H. injection H as <- <- <-.
  exists b, status, txt, found. repeat split; try reflexivity. exact Es.
Qed.






(** C9: scoring and sorting an already scored and sorted batch again
    (in the same year) leaves every score and the order as they are. *)
Theorem scoring_idempotent (cal : Calendar) (results : list Result) :
  scoreAndSort cal (scoreAndSort cal results) = scoreAndSort cal results.
Proof.
  unfold scoreAndSort.
  rewrite (scoreAll_of_scored cal results).
  - rewrite !byScoreDesc_sort. apply (sort_of_sorted score_or_0).
    apply (sort_sorted score_or_0).
  - rewrite byScoreDesc_sort. apply (sort_perm score_or_0).
Qed.

End RankingClaims.

(* ================================================================== *)
(** * The handler: fallback, follow-up question, shipping flag *)
(* ================================================================== *)

Module HandlerClaims.
Import JS Heuristic Scorer Handler Spec Samples RankingClaims.

Lemma heuristicParse_not_nullish (now : Z) (text : string) :
  nullish (heuristicParse now text) = false.
Proof. reflexivity. Qed.

Lemma key_configured_without_key (w : World) : key_configured (without_key w) = false.
Proof. reflexivity. Qed.



(** The ways the language-model path fails: the call is rejected, the
    status is not a success, the body is not JSON, the reply text does
    not parse. *)
Lemma llm_failure_modes (w : World) (text : string) :
  (forall message, openai w text = LlmUnreachable message ->
     parsePromptWithOpenAI w text = Throw message)
  /\ (forall status json, openai w text = LlmResponse false status json ->
       parsePromptWithOpenAI w text = Throw ("OpenAI error " ++ status_text status))
  /\ (forall status, openai w text = LlmResponse true status None ->
       exists message, parsePromptWithOpenAI w text = Throw message)
  /\ (forall status j reply,
       openai w text = LlmResponse true status (Some j) ->
       nullish j = false ->
       or_else (opt_prop (opt_prop (opt_first (prop j "choices")) "message") "content")
               (VString "{}") = VString reply ->
       JSON_parse w (match braces_match reply with Some m => m | None => reply end)
       = None ->
       parsePromptWithOpenAI w text
       = Throw "OpenAI returned non-JSON or malformed JSON").
Proof.
  unfold parsePromptWithOpenAI. repeat split.
  - now intros message ->.
  - now intros status json ->.
  - intros status ->. simpl. eauto.
  - intros status j reply -> Hj Hr Hp. simpl. now rewrite Hj, Hr, Hp.
Qed.



(** A reply that parses is used as it is, also when it is [null]: the
    handler then fails reading [criteria.keywords]. *)
Example null_reply_is_a_server_error :
  handler (answering "null") (post "hola")
  = JsonError 500 "server error" (Some type_error).
Proof. reflexivity. Qed.

(** ** The follow-up question *)

Lemma existsb_strictly_false (results : list Result) :
  existsb (fun r => strictly_false (free_shipping r)) results = true
  <-> exists r, In r results /\ free_shipping r = VBool false.
Proof.
  rewrite existsb_exists. split; intros (r & Hin & H); exists r; split; auto.
  - destruct (free_shipping r) as [| |[|]| | | |]; try discriminate. reflexivity.
  - now rewrite H.
Qed.

(** C8, as stated, fails: the handler tests the delivery date for
    truthiness, so criteria whose [latest_delivery_date] is the empty
    string (not [null]) still get the question. *)
Lemma follow_up_for_an_empty_delivery_date :
  ~ (forall criteria results,
       prop criteria "latest_delivery_date" <> VNull ->
       repregunta_of criteria results = VNull).
Proof.
  intro H. specialize (H undated [priced 100 false]).
  assert (E : repregunta_of undated [priced 100 false] = VNull).
  { apply H. discriminate. }
  discriminate E.
Qed.

(** The criteria of that counterexample reach the handler through the
    language model. *)
Example empty_delivery_date_reaches_the_handler :
  exists results,
    handler terse (post "hola") = JsonOk undated results (VString follow_up).
Proof. eexists. reflexivity. Qed.

(** C8 (amended): the follow-up question is the fixed string exactly
    when [criteria.latest_delivery_date] is falsy ([null], missing or
    empty) and at least one result has [free_shipping] false; it is
    [null] in every other case, in particular whenever the delivery date
    is a non-empty string; and it is what a successful response
    carries. *)
Theorem repregunta_spec (criteria : value) (results : list Result) :
  let date := prop criteria "latest_delivery_date" in
  let asked :=
    truthy date = false
    /\ exists r, In r results /\ free_shipping r = VBool false in
  (repregunta_of criteria results = VString follow_up <-> asked)
  /\ (repregunta_of criteria results = VNull <-> ~ asked)
  /\ (date = VNull ->
      (repregunta_of criteria results = VString follow_up
       <-> exists r, In r results /\ free_shipping r = VBool false))
  /\ (forall s, date = VString s -> s <> "" ->
      repregunta_of criteria results = VNull)
  /\ (forall w req rep,
        handler w req = JsonOk criteria results rep ->
        rep = repregunta_of criteria results).
Proof.
  intros date asked.
  assert (Hiff : repregunta_of criteria results = VString follow_up <-> asked).
  { unfold repregunta_of, asked. fold date.
    rewrite <- existsb_strictly_false.
    destruct (truthy date), (existsb _ results); simpl;
      split; intro H; try discriminate; try reflexivity;
      try (destruct H; discriminate); auto. }
  assert (Hcases : repregunta_of criteria results = VString follow_up
                   \/ repregunta_of criteria results = VNull).
  { unfold repregunta_of. destruct (_ && _); auto. }
  split; [exact Hiff|]. split; [|split; [|split]].
  - split.
    + intros E Ha. apply Hiff in Ha. rewrite E in Ha. discriminate.
    + intro Hn. destruct Hcases as [E | E]; [|exact E].
      exfalso. apply Hn. now apply Hiff.
  - intro Hd. rewrite Hiff. unfold asked. rewrite Hd. simpl. tauto.
  - intros s Hd Hs. unfold repregunta_of. fold date. rewrite Hd. simpl.
    apply String.eqb_neq in Hs. now rewrite Hs.
  - intros w req rep H. apply handler_ok in H.
    destruct H as (_ & _ & _ & _ & _ & _ & _ & _ & ->). reflexivity.
Qed.

(** ** The free-shipping flag *)

(** C10, as stated, fails: a truthy flag is copied as it is, so a
    listing whose flag is the number 1 gets [free_shipping] 1, which is
    not a boolean. *)
Lemma free_shipping_of_a_numeric_flag :
  ~ (forall item sellerInfo,
       isBoolean (free_shipping (enrich item sellerInfo)) = true).
Proof.
  intro H. specialize (H flagged_1 VNull). discriminate H.
Qed.

(** C10 (amended): [free_shipping] is [false] whenever the item has no
    shipping block or its flag is missing or falsy, and is the flag
    itself otherwise; it is never [null] or [undefined], and it is a
    boolean whenever the flag is a boolean or is missing. *)
Theorem free_shipping_normalised (item : RawItem) (sellerInfo : value) :
  let flag := opt_prop (shipping item) "free_shipping" in
  let shown := free_shipping (enrich item sellerInfo) in
  (nullish (shipping item) = true -> shown = VBool false)
  /\ (truthy flag = false -> shown = VBool false)
  /\ (truthy flag = true -> shown = flag)
  /\ nullish shown = false
  /\ (isBoolean flag = true \/ nullish flag = true -> isBoolean shown = true).
Proof.
  intros flag shown.
  assert (E : shown = or_else flag (VBool false)) by reflexivity.
  rewrite E. unfold or_else. split; [|split; [|split; [|split]]].
  - intro Hn. unfold flag, opt_prop. now rewrite Hn.
  - now intros ->.
  - now intros ->.
  - destruct flag as [| |[|]|[|q]|s| |]; simpl; try reflexivity;
      destruct (negb _); reflexivity.
  - intros [H | H]; destruct flag as [| |[|]|[|q]|s| |];
      simpl in *; try discriminate; reflexivity.
Qed.

End HandlerClaims.

(* ================================================================== *)
(** * The heuristic parser *)
(* ================================================================== *)

Module HeuristicClaims.
Import JS Heuristic Spec.

Local Open Scope Z_scope.

(** ** Digits and [parseInt] *)

Lemma digits_upto_length (n : nat) (s : string) :
  (String.length (digits_upto n s) <= n)%nat.
Proof.
  revert s; induction n as [|n IH]; intros [|c r]; simpl; try lia.
  destruct (is_digit c); simpl; [|lia]. specialize (IH r). lia.
Qed.

Lemma digits_upto_digits (n : nat) (s : string) :
  Forall (fun c => is_digit c = true) (list_ascii_of_string (digits_upto n s)).
Proof.
  revert s; induction n as [|n IH]; intros [|c r]; simpl; try constructor.
  destruct (is_digit c) eqn:E; simpl; constructor; auto.
Qed.

Lemma digit_value (c : ascii) :
  is_digit c = true -> 0 <= Z.of_nat (nat_of_ascii c - 48) <= 9.
Proof.
  unfold is_digit. intro H. apply andb_prop in H. destruct H as [H1 H2].
  apply Nat.leb_le in H1, H2. lia.
Qed.

Lemma parseInt_fold_range (l : list ascii) (acc : Z) :
  Forall (fun c => is_digit c = true) l -> 0 <= acc ->
  0 <= fold_left (fun a c => 10 * a + Z.of_nat (nat_of_ascii c - 48)) l acc
    < (acc + 1) * 10 ^ Z.of_nat (List.length l).
Proof.
  intro H. revert acc. induction H as [|c l Hc _ IH]; intros acc Hacc.
  - simpl. lia.
  - pose proof (digit_value c Hc) as Hd.
    specialize (IH (10 * acc + Z.of_nat (nat_of_ascii c - 48))).
    cbn [fold_left List.length]. rewrite Nat2Z.inj_succ, Z.pow_succ_r by lia.
    assert (Hp : 0 < 10 ^ Z.of_nat (List.length l)) by (apply Z.pow_pos_nonneg; lia).
    split; [apply IH; lia|].
    eapply Z.lt_le_trans; [apply IH; lia|]. nia.
Qed.

Lemma length_list_ascii (s : string) :
  List.length (list_ascii_of_string s) = String.length s.
Proof. induction s; simpl; congruence. Qed.

Lemma parseInt_digits_upto (s : string) :
  0 <= parseInt (digits_upto 6 s) <= 999999.
Proof.
  unfold parseInt.
  pose proof (parseInt_fold_range _ 0 (digits_upto_digits 6 s) (Z.le_refl 0)) as H.
  rewrite length_list_ascii in H.
  pose proof (digits_upto_length 6 s) as Hl.
  assert (Hp : 10 ^ Z.of_nat (String.length (digits_upto 6 s)) <= 10 ^ 6).
  { apply Z.pow_le_mono_r; lia. }
  change (10 ^ 6) with 1000000 in Hp. lia.
Qed.

Lemma digits_2_6_some (s d : string) : digits_2_6 s = Some d -> d = digits_upto 6 s.
Proof.
  unfold digits_2_6. destruct (2 <=? _)%nat; congruence.
Qed.

Lemma space_digits_some (s d : string) :
  space_digits s = Some d -> exists t, d = digits_upto 6 t.
Proof.
  unfold space_digits. intro H.
  destruct (skip_space s) as [r|].
  - destruct (digits_2_6 r) as [d'|] eqn:E.
    + injection H as <-. eauto using digits_2_6_some.
    + eauto using digits_2_6_some.
  - eauto using digits_2_6_some.
Qed.

Lemma price_at_some (s d : string) :
  price_at s = Some d -> exists t, d = digits_upto 6 t.
Proof.
  unfold price_at. intro H.
  destruct s as [|c r]; [eauto using space_digits_some|].
  destruct (Ascii.eqb c "$") eqn:Ec.
  - apply Ascii.eqb_eq in Ec. subst c.
    destruct (space_digits r) as [d'|] eqn:E.
    + injection H as <-. eauto using space_digits_some.
    + eauto using space_digits_some.
  - assert (Hs : space_digits (String c r) = Some d).
    { revert H. destruct c as [[] [] [] [] [] [] [] []]; try (intro H; exact H).
      discriminate Ec. }
    eauto using space_digits_some.
Qed.

Lemma priceMatch_eq (s : string) :
  priceMatch s
  = match price_at s with
    | Some d => Some d
    | None => match s with
              | EmptyString => None
              | String _ r => priceMatch r
              end
    end.
Proof. destruct s; reflexivity. Qed.

Lemma priceMatch_some (s d : string) :
  priceMatch s = Some d -> exists t, d = digits_upto 6 t.
Proof.
  induction s as [|c r IH]; rewrite priceMatch_eq.
  - destruct (price_at "") eqn:E; [|discriminate].
    intros [= <-]. eauto using price_at_some.
  - destruct (price_at (String c r)) eqn:E.
    + intros [= <-]. eauto using price_at_some.
    + exact IH.
Qed.

Lemma budget_max_of_range (p : string) :
  nullable (integer_between 0 999999) (budget_max_of p).
Proof.
  unfold budget_max_of. destruct (priceMatch p) as [d|] eqn:E.
  - right. apply priceMatch_some in E. destruct E as (t & ->).
    eexists. split; [reflexivity | apply parseInt_digits_upto].
  - now left.
Qed.

(** ** Strings *)

Lemma string_or_null_spec (s : string) : nullable nonempty_string (string_or_null s).
Proof.
  unfold string_or_null, or_else. simpl.
  destruct (s =? "")%string eqn:E; simpl.
  - now left.
  - right. exists s. split; [reflexivity | now apply String.eqb_neq].
Qed.

Lemma append_dash_nonempty (s t : string) : (s ++ "-" ++ t)%string <> ""%string.
Proof. destruct s; discriminate. Qed.

Lemma toISODate_nonempty (ms : Z) : toISODate ms <> ""%string.
Proof.
  unfold toISODate. destruct (civil_from_days _) as [[y m] d].
  apply append_dash_nonempty.
Qed.

Lemma latest_delivery_date_of_spec (now : Z) (p : string) :
  nullable nonempty_string (latest_delivery_date_of now p).
Proof.
  unfold latest_delivery_date_of. destruct (_ || _)%bool.
  - right. eexists. split; [reflexivity | apply toISODate_nonempty].
  - now left.
Qed.

Lemma weight_is_weight (n d : positive) :
  (n <= d)%positive -> is_weight (weight n d).
Proof.
  intro H. eexists. split; [reflexivity|].
  unfold Qle. simpl. split; lia.
Qed.

Lemma category_of_spec (p : string) :
  nullable (one_of categories)
           (match category_of p with Some c => string_or_null c | None => VNull end).
Proof.
  destruct (category_of p) as [c|] eqn:E; [|now left].
  apply find_some in E. destruct E as [Hin _]. right. exists c. split; [exact Hin|].
  simpl in Hin. repeat (destruct Hin as [<- | Hin]; [reflexivity|]). contradiction.
Qed.

(** ** Keywords without a category *)

Lemma includes_eq (s w : string) :
  includes s w
  = if String.prefix w s then true
    else match s with
         | EmptyString => false
         | String _ r => includes r w
         end.
Proof. destruct s; reflexivity. Qed.

Lemma includes_prefix (s w : string) : String.prefix w s = true -> includes s w = true.
Proof. intro H. now rewrite includes_eq, H. Qed.

Lemma includes_tail (c : ascii) (s w : string) :
  includes s w = true -> includes (String c s) w = true.
Proof.
  intro H. rewrite includes_eq, H. now destruct (String.prefix w (String c s)).
Qed.

Lemma keywordMatch_eq (s : string) :
  keywordMatch s
  = match keyword_at s with
    | Some w => Some w
    | None => match s with
              | EmptyString => None
              | String _ r => keywordMatch r
              end
    end.
Proof. destruct s; reflexivity. Qed.

Lemma keywordMatch_includes (s w : string) :
  keywordMatch s = Some w -> In w keyword_alternatives /\ includes s w = true.
Proof.
  induction s as [|c r IH]; rewrite keywordMatch_eq.
  - destruct (keyword_at "") eqn:E; [|discriminate]. intros [= <-].
    apply find_some in E. destruct E as [Hin Hp]. split; [exact Hin|].
    now apply includes_prefix.
  - destruct (keyword_at (String c r)) eqn:E.
    + intros [= <-]. apply find_some in E. destruct E as [Hin Hp].
      split; [exact Hin|]. now apply includes_prefix.
    + intro H. destruct (IH H) as [Hin Hi]. split; [exact Hin|].
      now apply includes_tail.
Qed.

Lemma keyword_alternatives_are_categories (w : string) :
  In w keyword_alternatives -> In w categories.
Proof.
  simpl. intro H.
  repeat (destruct H as [<- | H]; [tauto|]). contradiction.
Qed.

Lemma no_category_no_keyword (p : string) :
  category_of p = None -> keywordMatch p = None.
Proof.
  intro Hc. destruct (keywordMatch p) as [w|] eqn:E; [|reflexivity].
  apply keywordMatch_includes in E. destruct E as [Hin Hi].
  apply keyword_alternatives_are_categories in Hin.
  pose proof (find_none _ _ Hc w Hin) as Hf. simpl in Hf. congruence.
Qed.

(** ** The two prompts of the specification *)

(** C3, as stated, fails: the prompt has the word barata, the parser
    looks for barato, and the price weight stays at 0.4. *)
Lemma barata_keeps_the_price_weight_at_0_4 :
  ~ (let c := heuristicParse 1700000000000 "notebook barata hasta $300" in
     prop c "category" = VString "notebook"
     /\ is_number (prop c "budget_max") 300
     /\ is_number (prop (prop c "priority_weights") "price") 0.7).
Proof.
  cbv zeta. intros (_ & _ & H). vm_compute in H. discriminate H.
Qed.

(** C3 (amended): the heuristic parse of "notebook barata hasta $300"
    yields category "notebook", budget_max 300 and the price weight 0.4;
    the price weight is 0.7 exactly for the prompts whose lower-case form
    contains "barato", as "notebook barato hasta $300" does. *)
Theorem notebook_barata_hasta_300 (now : Z) :
  let c := heuristicParse now "notebook barata hasta $300" in
  prop c "category" = VString "notebook"
  /\ is_number (prop c "budget_max") 300
  /\ is_number (prop (prop c "priority_weights") "price") 0.4
  /\ is_number
       (prop (prop (heuristicParse now "notebook barato hasta $300")
                   "priority_weights") "price") 0.7
  /\ forall prompt,
       prop (prop (heuristicParse now prompt) "priority_weights") "price"
       = if includes (toLowerCase prompt) "barato"
            || includes (toLowerCase prompt) "lo mas barato"
         then weight 7 10 else weight 4 10.
Proof.
  cbv zeta. repeat split.
Qed.

(** C4, as stated, fails: for "hola" the keywords are [null], not the
    empty string. *)
Lemma hola_has_null_keywords :
  ~ (let c := heuristicParse 1700000000000 "hola" in
     prop c "category" = VNull
     /\ prop c "budget_max" = VNull
     /\ prop c "keywords" = VString "").
Proof.
  cbv zeta. intros (_ & _ & H). discriminate H.
Qed.

(** C4 (amended): for every prompt the heuristic returns a well-formed
    Criteria object; for a prompt that matches no category and no
    budget pattern, such as "hola", the category, budget_max and
    keywords are all [null]. *)
Theorem heuristicParse_well_formed (now : Z) (prompt : string) :
  let p := toLowerCase prompt in
  let c := heuristicParse now prompt in
  well_formed_criteria prompt c
  /\ (category_of p = None -> priceMatch p = None ->
      prop c "category" = VNull
      /\ prop c "budget_max" = VNull
      /\ prop c "keywords" = VNull)
  /\ (let hola := heuristicParse now "hola" in
      prop hola "category" = VNull
      /\ prop hola "budget_max" = VNull
      /\ prop hola "keywords" = VNull).
Proof.
  intros p c. split; [|split].
  - unfold well_formed_criteria, c, heuristicParse. fold p.
    unfold priority_weights_of.
    do 8 eexists. split; [reflexivity|].
    split; [apply string_or_null_spec|].
    split; [apply category_of_spec|].
    split; [apply budget_max_of_range|].
    split; [apply latest_delivery_date_of_spec|].
    repeat split;
      match goal with
      | |- is_weight (if ?b then _ else _) => destruct b
      | _ => idtac
      end; apply weight_is_weight; lia.
  - intros Hc Hp. unfold c, heuristicParse. fold p. simpl.
    unfold budget_max_of, keywords_of.
    rewrite Hc, Hp, (no_category_no_keyword p Hc). repeat split.
  - cbv zeta. repeat split.
Qed.

End HeuristicClaims.

(* ================================================================== *)
(** * Worked requests *)
(* ================================================================== *)

Module Requests.
Import JS Heuristic Scorer Handler Spec Samples.

Example get_is_not_allowed :
  handler offline {| method := "GET"; body := Throw "no body" |}
  = JsonError 405 "Method not allowed" None.
Proof. reflexivity. Qed.

Example options_is_a_preflight :
  handler offline {| method := "OPTIONS"; body := Throw "no body" |} = Ended 200.
Proof. reflexivity. Qed.

Example blank_prompt_is_rejected :
  handler offline (post "   ") = JsonError 400 "prompt is required" None.
Proof. reflexivity. Qed.

Example cheaper_with_free_shipping_scores_higher :
  map score (scoreAll (calendar_of 2026) [priced 100 true; priced 200 false])
  = [Some (Num 90); Some (Num 19)].
Proof. reflexivity. Qed.

Example auriculares_baratos :
  exists criteria results,
    handler offline (post "auriculares baratos")
    = JsonOk criteria results (VString follow_up)
    /\ prop criteria "category" = VString "auricular"
    /\ prop criteria "keywords" = VString "auricular auricular"
    /\ map price results = [Some 100; Some 150; Some 200]
    /\ map score results = [Some (Num 90); Some (Num 54); Some (Num 24)].
Proof. do 2 eexists. repeat split. Qed.

Example unavailable_model_falls_back :
  handler unavailable (post "hola") = handler offline (post "hola").
Proof. reflexivity. Qed.

End Requests.

(* ================================================================== *)
(** * Further definitions: reference readings and world updates *)
(* ================================================================== *)

Module Reading.
Import JS Heuristic Scorer Handler.

(** The first place of [s] where at least two digits stand side by
    side, read for at most six digits. *)
Fixpoint first_digit_run (s : string) : option string :=
  match digits_2_6 s with
  | Some d => Some d
  | None =>
    match s with
    | EmptyString => None
    | String _ r => first_digit_run r
    end
  end.

(** Two digits stand side by side somewhere in [s]. *)
Fixpoint adjacent_digits (s : string) : bool :=
  match s with
  | String a (String b _ as r) => (is_digit a && is_digit b) || adjacent_digits r
  | _ => false
  end.

(** [c] occurs in [s]. *)
Fixpoint has_char (c : ascii) (s : string) : bool :=
  match s with
  | EmptyString => false
  | String a r => (a =? c)%char || has_char c r
  end.

(** The same world with other seller lookups. *)
Definition with_lookup (w : World) (lookup : value -> UserReply) : World :=
  {| OPENAI_API_KEY := OPENAI_API_KEY w;
     openai := openai w;
     JSON_parse := JSON_parse w;
     Date_now := Date_now w;
     calendar := calendar w;
     ml_search := ml_search w;
     ml_user := lookup |}.

(** The same response with other criteria in it. *)
Definition with_criteria (criteria : value) (r : response) : response :=
  match r with
  | JsonOk _ results repregunta => JsonOk criteria results repregunta
  | other => other
  end.

(** Order of scores: numbers by size, [NaN] only next to [NaN]. *)
Definition number_le (a b : number) : Prop :=
  match a, b with
  | Num x, Num y => x <= y
  | NaN, NaN => True
  | _, _ => False
  end.

(** A prompt field that is missing, empty or white space only. *)
Definition blank (prompt : option string) : bool :=
  match prompt with
  | None => true
  | Some s => all_space s
  end.

End Reading.

(* ================================================================== *)
(** * More on the heuristic parser *)
(* ================================================================== *)

Module HeuristicCoverage.
Import JS Heuristic Scorer Handler Spec Reading HeuristicClaims.

(** ** The budget is the first run of digits *)

Lemma digits_2_6_not_digit (c : ascii) (r : string) :
  is_digit c = false -> digits_2_6 (String c r) = None.
Proof. intro H. unfold digits_2_6. simpl. now rewrite H. Qed.

Lemma first_digit_run_eq (s : string) :
  first_digit_run s
  = match digits_2_6 s with
    | Some d => Some d
    | None => match s with
              | EmptyString => None
              | String _ r => first_digit_run r
              end
    end.
Proof. destruct s; reflexivity. Qed.

Lemma first_digit_run_skip (c : ascii) (r : string) :
  is_digit c = false -> first_digit_run (String c r) = first_digit_run r.
Proof.
  intro H. rewrite first_digit_run_eq. now rewrite digits_2_6_not_digit.
Qed.

Lemma first_digit_run_here (s d : string) :
  digits_2_6 s = Some d -> first_digit_run s = Some d.
Proof. intro H. rewrite first_digit_run_eq. now rewrite H. Qed.

Lemma is_digit_false (c : ascii) :
  (nat_of_ascii c < 48 \/ 57 < nat_of_ascii c)%nat -> is_digit c = false.
Proof.
  intro H. unfold is_digit.
  destruct (48 <=? nat_of_ascii c)%nat eqn:E1; [|reflexivity].
  destruct (nat_of_ascii c <=? 57)%nat eqn:E2; [|reflexivity].
  apply Nat.leb_le in E1, E2. lia.
Qed.

Ltac bool_to_prop H :=
  repeat rewrite ?Bool.andb_true_iff, ?Bool.orb_true_iff,
                 ?Nat.eqb_eq, ?Nat.leb_le in H.

(** White space holds no digit: what [\s] takes never hides a digit run. *)
Lemma skip_space_no_digit (s r : string) :
  skip_space s = Some r ->
  digits_2_6 s = None /\ first_digit_run s = first_digit_run r.
Proof.
  destruct s as [|c s1]; [discriminate|]. unfold skip_space.
  destruct ((9 <=? nat_of_ascii c) && (nat_of_ascii c <=? 13)
            || (nat_of_ascii c =? 32))%nat eqn:E0.
  - intros [= <-]. bool_to_prop E0.
    assert (Hc : is_digit c = false) by (apply is_digit_false; lia).
    split; [now apply digits_2_6_not_digit | now apply first_digit_run_skip].
  - destruct s1 as [|c1 s2]; [discriminate|].
    destruct ((nat_of_ascii c =? 194) && (nat_of_ascii c1 =? 160))%nat eqn:E1.
    + intros [= <-]. bool_to_prop E1.
      assert (Hc : is_digit c = false) by (apply is_digit_false; lia).
      assert (Hc1 : is_digit c1 = false) by (apply is_digit_false; lia).
      split; [now apply digits_2_6_not_digit|].
      now rewrite !first_digit_run_skip.
    + destruct s2 as [|c2 s3]; [discriminate|].
      match goal with |- (if ?b then _ else _) = _ -> _ => destruct b eqn:E2 end;
        [|discriminate].
      intros [= <-]. bool_to_prop E2.
      assert (Hc : is_digit c = false) by (apply is_digit_false; lia).
      assert (Hc1 : is_digit c1 = false) by (apply is_digit_false; lia).
      assert (Hc2 : is_digit c2 = false) by (apply is_digit_false; lia).
      split; [now apply digits_2_6_not_digit|].
      now rewrite !first_digit_run_skip.
Qed.

Lemma space_digits_reads_first_run (s d : string) :
  space_digits s = Some d -> first_digit_run s = Some d.
Proof.
  unfold space_digits. destruct (skip_space s) as [r|] eqn:Es.
  - destruct (skip_space_no_digit s r Es) as [_ Hrun].
    destruct (digits_2_6 r) as [d'|] eqn:Er.
    + intros [= <-]. rewrite Hrun. now apply first_digit_run_here.
    + apply first_digit_run_here.
  - apply first_digit_run_here.
Qed.

Lemma space_digits_none (s : string) : space_digits s = None -> digits_2_6 s = None.
Proof.
  unfold space_digits. destruct (skip_space s) as [r|]; [|auto].
  destruct (digits_2_6 r); [discriminate | auto].
Qed.

Lemma price_at_cases (s : string) :
  (exists r, s = String "$" r
     /\ price_at s = match space_digits r with
                     | Some d => Some d
                     | None => space_digits s
                     end)
  \/ price_at s = space_digits s.
Proof.
  destruct s as [|c r]; [now right|].
  destruct (Ascii.eqb c "$") eqn:E.
  - apply Ascii.eqb_eq in E. subst c. left. eauto.
  - right. destruct c as [[] [] [] [] [] [] [] []]; try reflexivity.
    discriminate E.
Qed.

Lemma price_at_reads_first_run (s d : string) :
  price_at s = Some d -> first_digit_run s = Some d.
Proof.
  destruct (price_at_cases s) as [(r & -> & E) | E]; rewrite E.
  - destruct (space_digits r) as [d'|] eqn:Er.
    + intros [= <-]. rewrite first_digit_run_skip by reflexivity.
      now apply space_digits_reads_first_run.
    + apply space_digits_reads_first_run.
  - apply space_digits_reads_first_run.
Qed.

Lemma price_at_none (s : string) : price_at s = None -> digits_2_6 s = None.
Proof.
  destruct (price_at_cases s) as [(r & -> & E) | E]; rewrite E.
  - destruct (space_digits r); [discriminate | apply space_digits_none].
  - apply space_digits_none.
Qed.

Lemma priceMatch_first_digit_run (s : string) : priceMatch s = first_digit_run s.
Proof.
  induction s as [|c r IH]; rewrite priceMatch_eq, first_digit_run_eq.
  - destruct (price_at "") as [d|] eqn:E.
    + apply price_at_reads_first_run in E. rewrite first_digit_run_eq in E.
      now rewrite E.
    + now rewrite (price_at_none _ E).
  - destruct (price_at (String c r)) as [d|] eqn:E.
    + apply price_at_reads_first_run in E. rewrite first_digit_run_eq in E.
      now rewrite E.
    + now rewrite (price_at_none _ E).
Qed.

Lemma digits_2_6_none_iff (s : string) :
  digits_2_6 s = None
  <-> match s with
      | String a (String b _) => is_digit a && is_digit b = false
      | _ => True
      end.
Proof.
  unfold digits_2_6. destruct s as [|a [|b r]]; simpl.
  - tauto.
  - destruct (is_digit a); simpl; tauto.
  - destruct (is_digit a); simpl; [|tauto].
    destruct (is_digit b); simpl; [|tauto].
    split; [discriminate|]. discriminate.
Qed.

Lemma first_digit_run_none_iff (s : string) :
  first_digit_run s = None <-> adjacent_digits s = false.
Proof.
  induction s as [|a r IH]; [simpl; tauto|].
  rewrite first_digit_run_eq.
  destruct (digits_2_6 (String a r)) as [d|] eqn:E.
  - split; [discriminate|]. intro H. exfalso.
    assert (N : digits_2_6 (String a r) <> None) by congruence.
    apply N. apply digits_2_6_none_iff.
    destruct r as [|b r']; [exact I|]. simpl in H.
    now apply Bool.orb_false_iff in H.
  - rewrite IH. apply digits_2_6_none_iff in E.
    destruct r as [|b r']; [simpl; tauto|].
    change (adjacent_digits (String a (String b r')))
      with ((is_digit a && is_digit b) || adjacent_digits (String b r')).
    rewrite E. simpl. tauto.
Qed.

Lemma digits_2_6_length (s d : string) :
  digits_2_6 s = Some d -> (2 <= String.length d <= 6)%nat.
Proof.
  intro H. pose proof (digits_2_6_some s d H) as ->.
  unfold digits_2_6 in H.
  destruct (2 <=? String.length (digits_upto 6 s))%nat eqn:E; [|discriminate].
  apply Nat.leb_le in E. pose proof (digits_upto_length 6 s). lia.
Qed.

Lemma first_digit_run_length (s d : string) :
  first_digit_run s = Some d -> (2 <= String.length d <= 6)%nat.
Proof.
  induction s as [|c r IH]; rewrite first_digit_run_eq.
  - destruct (digits_2_6 "") eqn:E; [|discriminate].
    intros [= <-]. eauto using digits_2_6_length.
  - destruct (digits_2_6 (String c r)) eqn:E.
    + intros [= <-]. eauto using digits_2_6_length.
    + exact IH.
Qed.

(** X1: [budget_max] is [null] exactly when the lower-cased prompt has
    no two digits side by side; otherwise it is the number written by
    the first such run of digits, read for at most six digits, whatever
    stands before it (a dollar sign or not) or after it (a currency word
    or not). *)
Theorem budget_is_first_digit_run (now : Z) (prompt : string) :
  let p := toLowerCase prompt in
  let budget := prop (heuristicParse now prompt) "budget_max" in
  priceMatch p = first_digit_run p
  /\ (adjacent_digits p = false <-> budget = VNull)
  /\ (adjacent_digits p = true ->
      exists d, first_digit_run p = Some d
                /\ (2 <= String.length d <= 6)%nat
                /\ budget = VNumber (ofZ (parseInt d))).
Proof.
  intros p budget.
  assert (Eb : budget = budget_max_of p) by reflexivity.
  pose proof (priceMatch_first_digit_run p) as Hm.
  pose proof (first_digit_run_none_iff p) as Hn.
  split; [exact Hm|]. rewrite Eb. unfold budget_max_of. rewrite Hm. split.
  - rewrite <- Hn. destruct (first_digit_run p); split; congruence.
  - intro Ha. destruct (first_digit_run p) as [d|] eqn:E.
    + exists d. repeat split; eauto using first_digit_run_length.
      all: apply (first_digit_run_length p d E).
    + assert (adjacent_digits p = false) by now apply Hn. congruence.
Qed.

(** ** Keywords *)





(** ** Phrases that add nothing *)

Lemma prefix_app_includes (x y s : string) :
  String.prefix (x ++ y) s = true -> includes s y = true.
Proof.
  revert s. induction x as [|a x IH]; intros s H.
  - now apply includes_prefix.
  - destruct s as [|b s']; simpl in H; [discriminate|].
    destruct (ascii_dec a b); [|discriminate].
    apply includes_tail. now apply IH.
Qed.

Lemma includes_app_r (x y s : string) :
  includes s (x ++ y) = true -> includes s y = true.
Proof.
  induction s as [|a r IH]; rewrite (includes_eq _ (x ++ y)).
  - destruct (String.prefix (x ++ y) "") eqn:E; [|discriminate].
    intros _. now apply (prefix_app_includes x).
  - destruct (String.prefix (x ++ y) (String a r)) eqn:E.
    + intros _. now apply (prefix_app_includes x).
    + intro H. apply includes_tail. now apply IH.
Qed.

Lemma orb_implied (a b : bool) : (b = true -> a = true) -> a || b = a.
Proof. destruct a, b; simpl; auto. intro H. symmetry. now apply H. Qed.

(** X3: of the phrases the parser tests, the longer ones add nothing: a
    delivery date (a week from now) is set exactly when the lower-cased
    prompt contains "semana", and the delivery weight is then 0.3; the
    price weight is 0.7 exactly when it contains "barato". *)
Theorem longer_phrases_add_nothing (now : Z) (prompt : string) :
  let p := toLowerCase prompt in
  let c := heuristicParse now prompt in
  prop c "latest_delivery_date"
  = (if includes p "semana" then VString (toISODate (now + week_ms)) else VNull)
  /\ prop (prop c "priority_weights") "price"
     = (if includes p "barato" then weight 7 10 else weight 4 10)
  /\ (includes p "semana" = true ->
      prop (prop c "priority_weights") "delivery_time" = weight 3 10).
Proof.
  intros p c.
  assert (Hs : includes p "semana" || includes p "una semana"
               || includes p "dentro de una semana" = includes p "semana").
  { rewrite (orb_implied (includes p "semana") (includes p "una semana")).
    - apply orb_implied. apply (includes_app_r "dentro de una " "semana").
    - apply (includes_app_r "una " "semana"). }
  assert (Hb : includes p "barato" || includes p "lo mas barato"
               = includes p "barato").
  { apply orb_implied. apply (includes_app_r "lo mas " "barato"). }
  assert (Ed : prop c "latest_delivery_date" = latest_delivery_date_of now p)
    by reflexivity.
  split; [|split].
  - rewrite Ed. unfold latest_delivery_date_of. now rewrite Hs.
  - change (prop (prop c "priority_weights") "price")
      with (if includes p "barato" || includes p "lo mas barato"
            then weight 7 10 else weight 4 10).
    now rewrite Hb.
  - intro H.
    change (prop (prop c "priority_weights") "delivery_time")
      with (if includes p "rápido" || includes p "entrega rápida"
               || truthy (latest_delivery_date_of now p)
            then weight 3 10 else weight 15 100).
    unfold latest_delivery_date_of. rewrite Hs, H. simpl truthy.
    pose proof (toISODate_nonempty (now + week_ms)) as Hne.
    apply String.eqb_neq in Hne. rewrite Hne. simpl.
    now rewrite Bool.orb_true_r.
Qed.

(** ** Letter case *)







End HeuristicCoverage.

(* ================================================================== *)
(** * More on the handler *)
(* ================================================================== *)

Module HandlerCoverage.
Import JS Heuristic Scorer Handler Spec Samples Reading ScorerFacts RankingClaims.
Import HeuristicCoverage.

(** ** Blank prompts *)

Lemma skip_space_length (s r : string) :
  skip_space s = Some r -> (String.length r < String.length s)%nat.
Proof.
  destruct s as [|c s1]; [discriminate|]. unfold skip_space.
  destruct ((9 <=? nat_of_ascii c) && (nat_of_ascii c <=? 13)
            || (nat_of_ascii c =? 32))%nat.
  - intros [= <-]. simpl. lia.
  - destruct s1 as [|c1 s2]; [discriminate|].
    destruct ((nat_of_ascii c =? 194) && (nat_of_ascii c1 =? 160))%nat.
    + intros [= <-]. simpl. lia.
    + destruct s2 as [|c2 s3]; [discriminate|].
      match goal with |- (if ?b then _ else _) = _ -> _ => destruct b end;
        [|discriminate].
      intros [= <-]. simpl. lia.
Qed.

Lemma all_space_fuel_enough (n m : nat) (s : string) :
  (String.length s <= n)%nat -> (String.length s <= m)%nat ->
  all_space_fuel n s = all_space_fuel m s.
Proof.
  revert m s. induction n as [|n IH]; intros m s Hn Hm.
  - destruct s; [now destruct m | simpl in Hn; lia].
  - destruct s as [|c r]; [now destruct m|].
    destruct m as [|m]; [simpl in Hm; lia|].
    cbn [all_space_fuel].
    destruct (skip_space (String c r)) as [t|] eqn:E; [|reflexivity].
    apply skip_space_length in E. apply IH; lia.
Qed.

Lemma all_space_eq (s : string) :
  all_space s
  = match s with
    | EmptyString => true
    | _ => match skip_space s with
           | Some r => all_space r
           | None => false
           end
    end.
Proof.
  destruct s as [|c r]; [reflexivity|].
  unfold all_space at 1. cbn [String.length all_space_fuel].
  destruct (skip_space (String c r)) as [t|] eqn:E; [|reflexivity].
  apply skip_space_length in E. unfold all_space.
  apply all_space_fuel_enough; simpl in *; lia.
Qed.

Lemma trimStart_fuel_enough (n m : nat) (s : string) :
  (String.length s <= n)%nat -> (String.length s <= m)%nat ->
  trimStart_fuel n s = trimStart_fuel m s.
Proof.
  revert m s. induction n as [|n IH]; intros m s Hn Hm.
  - destruct s; [|simpl in Hn; lia]. now destruct m.
  - destruct m as [|m].
    + destruct s; [reflexivity | simpl in Hm; lia].
    + cbn [trimStart_fuel].
      destruct (skip_space s) as [t|] eqn:E; [|reflexivity].
      apply skip_space_length in E. apply IH; lia.
Qed.

Lemma trimStart_eq (s : string) :
  trimStart s = match skip_space s with
                | Some r => trimStart r
                | None => s
                end.
Proof.
  destruct s as [|c r]; [reflexivity|].
  unfold trimStart at 1. cbn [String.length trimStart_fuel].
  destruct (skip_space (String c r)) as [t|] eqn:E; [|reflexivity].
  apply skip_space_length in E. unfold trimStart.
  apply trimStart_fuel_enough; simpl in *; lia.
Qed.

Lemma all_space_trimStart_upto (n : nat) (s : string) :
  (String.length s <= n)%nat -> all_space (trimStart s) = all_space s.
Proof.
  revert s. induction n as [|n IH]; intros s Hl.
  - destruct s; [reflexivity | simpl in Hl; lia].
  - rewrite trimStart_eq. destruct (skip_space s) as [r|] eqn:E; [|reflexivity].
    pose proof (skip_space_length s r E) as Hr.
    rewrite IH by lia. rewrite (all_space_eq s), E.
    destruct s; [discriminate E | reflexivity].
Qed.

Lemma trimEnd_empty (t : string) : trimEnd t = "" <-> all_space t = true.
Proof.
  destruct t as [|c r]; [simpl; tauto|].
  cbn [trimEnd]. destruct (all_space (String c r)); split;
    try reflexivity; discriminate.
Qed.

(** [trim] leaves nothing exactly of the strings made of white space. *)
Lemma trim_empty (s : string) : trim s = "" <-> all_space s = true.
Proof.
  unfold trim. rewrite trimEnd_empty.
  now rewrite (all_space_trimStart_upto (String.length s) s (Nat.le_refl _)).
Qed.

Lemma prompt_of_blank (b : Body) : prompt_of b = "" <-> blank (prompt b) = true.
Proof.
  unfold prompt_of, blank. destruct (prompt b) as [s|].
  - apply trim_empty.
  - simpl. tauto.
Qed.

Lemma search_and_rank_is_not_400 (w : World) (text : string) (criteria : value) :
  search_and_rank w text criteria <> JsonError 400 "prompt is required" None.
Proof.
  unfold search_and_rank, server_error.
  destruct (nullish criteria); [discriminate|].
  destruct (ml_search w _) as [m | ok status txt json]; [discriminate|].
  destruct (negb ok); [discriminate|].
  destruct json; discriminate.
Qed.

(** X5: a POST whose body could be read is answered with 400 "prompt is
    required" exactly when the prompt is missing, empty or made of white
    space only. *)
Theorem prompt_required_iff_blank (w : World) (req : Request) (b : Body) :
  method req = "POST" ->
  body req = Return b ->
  handler w req = JsonError 400 "prompt is required" None
  <-> blank (prompt b) = true.
Proof.
  intros Hm Hb. rewrite <- prompt_of_blank. unfold handler. rewrite Hm, Hb.
  change ("POST" =? "OPTIONS") with false.
  change (negb ("POST" =? "POST")) with false. cbv iota.
  destruct (prompt_of b =? "") eqn:E.
  - apply String.eqb_eq in E. tauto.
  - apply String.eqb_neq in E. split; [|contradiction].
    intro H. exfalso. revert H. apply search_and_rank_is_not_400.
Qed.

Lemma prompt_required_iff_blank_witness :
  handler offline (post "   ") = JsonError 400 "prompt is required" None
  <-> blank (Some "   ") = true.
Proof.
  apply (prompt_required_iff_blank offline (post "   ")
           {| prompt := Some "   "; locale := None |}); reflexivity.
Defined.

(** X6: nothing outside is consulted before the request is validated: a
    request with another method than POST, with a body that cannot be
    read, or with a blank prompt gets the same response in every world
    (no credential, network reply or clock is read). *)
Theorem rejected_without_any_call (w w' : World) (req : Request) :
  method req <> "POST"
  \/ (exists message, body req = Throw message)
  \/ (exists b, body req = Return b /\ blank (prompt b) = true) ->
  handler w req = handler w' req.
Proof.
  unfold handler. intros [Hm | [(message & Hb) | (b & Hb & Hp)]].
  - destruct (method req =? "OPTIONS"); [reflexivity|].
    apply String.eqb_neq in Hm. now rewrite Hm.
  - rewrite Hb. reflexivity.
  - rewrite Hb. apply prompt_of_blank in Hp. rewrite Hp. reflexivity.
Qed.

Lemma rejected_without_any_call_witness :
  handler offline (post "  ") = handler terse (post "  ").
Proof.
  apply rejected_without_any_call. right; right.
  exists {| prompt := Some "  "; locale := None |}. split; reflexivity.
Defined.

(** ** Items and results *)

Lemma raw_scoreAll (cal : Calendar) (results : list Result) :
  map raw (scoreAll cal results) = map raw results.
Proof. unfold scoreAll. rewrite map_map. reflexivity. Qed.

Lemma raw_enrichAll (w : World) (items : list RawItem) :
  map raw (enrichAll w items) = items.
Proof. unfold enrichAll. rewrite map_map. apply map_id. Qed.

Lemma scoreAndSort_perm (cal : Calendar) (results : list Result) :
  Permutation (scoreAndSort cal results) (scoreAll cal results).
Proof.
  unfold scoreAndSort. rewrite byScoreDesc_sort. apply (sort_perm score_or_0).
Qed.

Lemma raw_scoreAndSort (w : World) (items : list RawItem) :
  Permutation (map raw (scoreAndSort (calendar w) (enrichAll w items))) items.
Proof.
  rewrite (Permutation_map raw (scoreAndSort_perm _ _)).
  now rewrite raw_scoreAll, raw_enrichAll.
Qed.

(** X7: a successful response holds exactly one result per item the
    search returned: the raw items of the results are those items,
    reordered, and every result is the enrichment of its own raw item
    with a score set. *)
Theorem one_result_per_item (w : World) (req : Request) (criteria : value)
    (results : list Result) (rep : value) :
  handler w req = JsonOk criteria results rep ->
  exists (b : Body) (status : Z) (txt : string) (found : option (list RawItem)),
    body req = Return b
    /\ ml_search w (query_of criteria (prompt_of b))
       = SearchResponse true status txt (Some found)
    /\ let items := match found with Some l => l | None => [] end in
       Permutation (map raw results) items
       /\ List.length results = List.length items
       /\ Forall (fun r => exists s,
                    r = set_score (enrich (raw r) (sellerInfo_of w (raw r))) s)
                 results.
Proof.
  intro H. apply handler_ok in H.
  destruct H as (b & status & txt & found & Hb & _ & Hs & -> & _).
  exists b, status, txt, found. split; [exact Hb|]. split; [exact Hs|].
  cbv zeta. set (items := match found with Some l => l | None => [] end).
  pose proof (raw_scoreAndSort w items) as Hp.
  split; [exact Hp|]. split.
  - rewrite <- (Permutation_length Hp). now rewrite length_map.
  - apply Forall_forall. intros r Hr.
    apply (Permutation_in _ (scoreAndSort_perm _ _)) in Hr.
    unfold scoreAll in Hr. apply in_map_iff in Hr.
    destruct Hr as (r0 & <- & Hr0). unfold enrichAll in Hr0.
    apply in_map_iff in Hr0. destruct Hr0 as (i & <- & _).
    eexists. reflexivity.
Qed.

Lemma one_result_per_item_witness :
  exists (b : Body) (status : Z) (txt : string) (found : option (list RawItem)),
    body (post "tv") = Return b
    /\ ml_search offline (query_of (extract offline "tv") (prompt_of b))
       = SearchResponse true status txt (Some found)
    /\ let items := match found with Some l => l | None => [] end in
       let results := scoreAndSort (calendar_of 2026) (enrichAll offline listings) in
       Permutation (map raw results) items
       /\ List.length results = List.length items
       /\ Forall (fun r => exists s,
                    r = set_score (enrich (raw r) (sellerInfo_of offline (raw r))) s)
                 results.
Proof.
  apply (one_result_per_item offline (post "tv") (extract offline "tv")
           (scoreAndSort (calendar_of 2026) (enrichAll offline listings))
           (VString follow_up)).
  vm_compute. reflexivity.
Defined.

(** ** Seller lookups *)

Lemma existsb_perm {A : Type} (f : A -> bool) (l l' : list A) :
  Permutation l l' -> existsb f l = existsb f l'.
Proof.
  induction 1 as [| x l l' _ IH | x y l | l l' l'' _ IH1 _ IH2]; simpl.
  - reflexivity.
  - now rewrite IH.
  - destruct (f x), (f y); reflexivity.
  - congruence.
Qed.

Lemma existsb_map {A B : Type} (f : B -> bool) (g : A -> B) (l : list A) :
  existsb f (map g l) = existsb (fun a => f (g a)) l.
Proof. induction l as [|a l IH]; simpl; [reflexivity | now rewrite IH]. Qed.

(** Whether some result lacks free shipping is decided by the items. *)
Lemma paid_shipping_of_items (w : World) (items : list RawItem) :
  existsb (fun r => strictly_false (free_shipping r))
          (scoreAndSort (calendar w) (enrichAll w items))
  = existsb (fun i => strictly_false
                        (or_else (opt_prop (shipping i) "free_shipping") (VBool false)))
            items.
Proof.
  rewrite (existsb_perm _ _ _ (scoreAndSort_perm _ _)).
  unfold scoreAll, enrichAll. rewrite map_map, existsb_map. reflexivity.
Qed.

Lemma repregunta_of_items (w w' : World) (criteria : value) (items : list RawItem) :
  repregunta_of criteria (scoreAndSort (calendar w') (enrichAll w' items))
  = repregunta_of criteria (scoreAndSort (calendar w) (enrichAll w items)).
Proof.
  unfold repregunta_of. now rewrite !paid_shipping_of_items.
Qed.

(** X8: seller lookups never decide whether a request succeeds.  With any
    other outcome of the lookups (failures included) an error response
    stays what it is, and a success stays a success with the same
    criteria, the same follow-up question and results for the same
    items. *)
Theorem seller_lookups_never_fail_the_request (w : World)
    (lookup : value -> UserReply) (req : Request) :
  match handler w req with
  | JsonOk criteria results rep =>
    exists results',
      handler (with_lookup w lookup) req = JsonOk criteria results' rep
      /\ Permutation (map raw results') (map raw results)
  | other => handler (with_lookup w lookup) req = other
  end.
Proof.
  unfold handler.
  destruct (method req =? "OPTIONS"); [reflexivity|].
  destruct (negb (method req =? "POST")); [reflexivity|].
  destruct (body req) as [b | m]; [|reflexivity].
  destruct (prompt_of b =? ""); [reflexivity|].
  change (extract (with_lookup w lookup) (prompt_of b))
    with (extract w (prompt_of b)).
  unfold search_and_rank.
  destruct (nullish (extract w (prompt_of b))); [reflexivity|].
  change (ml_search (with_lookup w lookup)) with (ml_search w).
  destruct (ml_search w _) as [m | ok status txt json]; [reflexivity|].
  destruct (negb ok); [reflexivity|].
  destruct json as [found|]; [|reflexivity].
  cbv zeta. eexists. split.
  - f_equal. apply repregunta_of_items.
  - rewrite (raw_scoreAndSort w). apply (raw_scoreAndSort (with_lookup w lookup)).
Qed.

Definition lookup_failed (reply : UserReply) : Prop :=
  reply = UserUnreachable
  \/ (exists json, reply = UserResponse false json)
  \/ reply = UserResponse true None.

(** X17: a result degrades to its seller id.  When the item names no
    seller id (no lookup is made then, whatever the world), or when its
    lookup is rejected, answers with a status that is not a success or
    with a body that is not JSON, the seller block holds only the id the
    item gave, or [null], and the seller score is 0.5 in every year. *)
Theorem failed_lookup_degrades_the_seller (w : World) (item : RawItem) :
  truthy (item_seller item) && truthy (prop (item_seller item) "id") = false
  \/ lookup_failed (ml_user w (prop (item_seller item) "id")) ->
  let r := enrich item (sellerInfo_of w item) in
  seller r = {| seller_id := or_else (opt_prop (item_seller item) "id") VNull;
                nickname := VUndefined;
                registration_date := VUndefined;
                seller_permalink := VUndefined |}
  /\ (forall cal, scoreSeller cal r = Num 0.5)
  /\ (truthy (item_seller item) && truthy (prop (item_seller item) "id") = false ->
      seller_id (seller r) = VNull).
Proof.
  intros H r.
  assert (E : sellerInfo_of w item = VNull).
  { unfold sellerInfo_of.
    destruct (truthy (item_seller item) && truthy (prop (item_seller item) "id"));
      [|reflexivity].
    destruct H as [H | [H | [(json & H) | H]]];
      try discriminate H; now rewrite H. }
  unfold r. rewrite E. split; [reflexivity|]. split; [reflexivity|].
  intro Hid. simpl. unfold or_else, opt_prop.
  destruct (item_seller item) as [| |b|n|s|xs|fields]; try reflexivity;
    simpl in *; try (destruct (truthy _); reflexivity).
  now rewrite Hid.
Qed.

Lemma failed_lookup_degrades_the_seller_witness :
  let r := enrich (item (Some 100) (free true) VNull)
                  (sellerInfo_of offline (item (Some 100) (free true) VNull)) in
  seller r = {| seller_id := or_else (opt_prop VNull "id") VNull;
                nickname := VUndefined;
                registration_date := VUndefined;
                seller_permalink := VUndefined |}
  /\ (forall cal, scoreSeller cal r = Num 0.5)
  /\ (truthy VNull && truthy (prop VNull "id") = false ->
      seller_id (seller r) = VNull).
Proof.
  apply (failed_lookup_degrades_the_seller offline (item (Some 100) (free true) VNull)).
  left. reflexivity.
Defined.

Lemma strictly_false_or_else (flag : value) :
  strictly_false (or_else flag (VBool false)) = negb (truthy flag).
Proof.
  unfold or_else. destruct flag as [| |[|]|[|q]|s|xs|fields]; try reflexivity;
    simpl; destruct (negb _); reflexivity.
Qed.

(** X18: in a successful response the follow-up question is asked
    exactly when the criteria carry no (truthy) delivery date and one of
    the items the search returned has no shipping block or a missing or
    falsy free-shipping flag. *)
Theorem follow_up_decided_by_items (w : World) (req : Request) (criteria : value)
    (results : list Result) (rep : value) :
  handler w req = JsonOk criteria results rep ->
  exists (b : Body) (status : Z) (txt : string) (found : option (list RawItem)),
    body req = Return b
    /\ ml_search w (query_of criteria (prompt_of b))
       = SearchResponse true status txt (Some found)
    /\ (rep = VString follow_up \/ rep = VNull)
    /\ (rep = VString follow_up <->
        truthy (prop criteria "latest_delivery_date") = false
        /\ exists i, In i (match found with Some l => l | None => [] end)
                     /\ truthy (opt_prop (shipping i) "free_shipping") = false).
Proof.
  intro H. apply handler_ok in H.
  destruct H as (b & status & txt & found & Hb & _ & Hs & -> & ->).
  exists b, status, txt, found. split; [exact Hb|]. split; [exact Hs|].
  set (items := match found with Some l => l | None => [] end).
  unfold repregunta_of. rewrite paid_shipping_of_items. fold items.
  assert (Hex : existsb (fun i => strictly_false
                   (or_else (opt_prop (shipping i) "free_shipping") (VBool false)))
                 items = true
                <-> exists i, In i items
                      /\ truthy (opt_prop (shipping i) "free_shipping") = false).
  { rewrite existsb_exists. split; intros (i & Hi & Hf); exists i; split; auto.
    - rewrite strictly_false_or_else in Hf. now destruct (truthy _).
    - rewrite strictly_false_or_else, Hf. reflexivity. }
  destruct (truthy (prop criteria "latest_delivery_date")),
           (existsb _ items) eqn:E; simpl.
  - split; [auto|]. split; [discriminate|]. now intros [? _].
  - split; [auto|]. split; [discriminate|]. now intros [? _].
  - split; [auto|]. split; [intros _; split; [reflexivity | now apply Hex]|reflexivity].
  - split; [auto|]. split; [discriminate|].
    intros [_ Hi]. apply Hex in Hi. discriminate.
Qed.

Lemma follow_up_decided_by_items_witness :
  exists (b : Body) (status : Z) (txt : string) (found : option (list RawItem)),
    body (post "tv") = Return b
    /\ ml_search offline (query_of (extract offline "tv") (prompt_of b))
       = SearchResponse true status txt (Some found)
    /\ (VString follow_up = VString follow_up \/ VString follow_up = VNull)
    /\ (VString follow_up = VString follow_up <->
        truthy (prop (extract offline "tv") "latest_delivery_date") = false
        /\ exists i, In i (match found with Some l => l | None => [] end)
                     /\ truthy (opt_prop (shipping i) "free_shipping") = false).
Proof.
  apply (follow_up_decided_by_items offline (post "tv") (extract offline "tv")
           (scoreAndSort (calendar_of 2026) (enrichAll offline listings))
           (VString follow_up)).
  vm_compute. reflexivity.
Defined.

(** ** The criteria the ranking reads *)

(** X9: of the criteria, the search and the ranking read only the
    keywords, the category and the delivery date: criteria that agree on
    these three (whatever their budget, weights or lists) give the same
    response, but for the criteria echoed in it. *)
Theorem ranking_reads_three_fields (w : World) (text : string) (c c' : value) :
  nullish c = nullish c' ->
  prop c "keywords" = prop c' "keywords" ->
  prop c "category" = prop c' "category" ->
  prop c "latest_delivery_date" = prop c' "latest_delivery_date" ->
  search_and_rank w text c' = with_criteria c' (search_and_rank w text c).
Proof.
  intros Hn Hk Hc Hd. unfold search_and_rank. rewrite <- Hn.
  destruct (nullish c); [reflexivity|].
  unfold query_of. rewrite <- Hk, <- Hc.
  destruct (ml_search w _) as [m | ok status txt json]; [reflexivity|].
  destruct (negb ok); [reflexivity|].
  destruct json as [found|]; [|reflexivity].
  cbv zeta. simpl. f_equal. unfold repregunta_of. now rewrite Hd.
Qed.

Lemma ranking_reads_three_fields_witness :
  search_and_rank offline "notebook barata hasta $300"
    (VObject [("keywords", VString "notebook notebook");
              ("category", VString "notebook");
              ("latest_delivery_date", VNull);
              ("budget_max", VNumber (Num 1))])
  = with_criteria
      (VObject [("keywords", VString "notebook notebook");
                ("category", VString "notebook");
                ("latest_delivery_date", VNull);
                ("budget_max", VNumber (Num 1))])
      (search_and_rank offline "notebook barata hasta $300"
         (heuristicParse 1700000000000 "notebook barata hasta $300")).
Proof.
  apply ranking_reads_three_fields; reflexivity.
Defined.

(** ** What the search returns *)



(** ** The text handed to [JSON.parse] *)

Lemma string_app_assoc (a b c : string) :
  ((a ++ b) ++ c)%string = (a ++ b ++ c)%string.
Proof. induction a as [|x a IH]; simpl; [reflexivity | now rewrite IH]. Qed.

Lemma has_char_app (c : ascii) (a b : string) :
  has_char c (a ++ b) = has_char c a || has_char c b.
Proof.
  induction a as [|x a IH]; simpl; [reflexivity|].
  rewrite IH. now rewrite Bool.orb_assoc.
Qed.

Lemma from_first_brace_some (s t : string) :
  from_first_brace s = Some t ->
  exists pre rest,
    s = (pre ++ t)%string /\ t = String "{" rest /\ has_char "{" pre = false.
Proof.
  induction s as [|a r IH]; simpl; [discriminate|].
  destruct (Ascii.eqb a "{") eqn:E.
  - intros [= <-]. apply Ascii.eqb_eq in E. subst a.
    exists "", r. repeat split.
  - intro H. destruct (IH H) as (pre & rest & -> & -> & Hp).
    exists (String a pre), rest. repeat split. simpl. now rewrite E, Hp.
Qed.

Lemma from_first_brace_app (pre rest : string) :
  exists pre',
    from_first_brace (pre ++ String "{" rest) = Some (pre' ++ String "{" rest)%string.
Proof.
  induction pre as [|a pre IH]; simpl.
  - now exists "".
  - destruct (Ascii.eqb a "{").
    + now exists (String a pre).
    + exact IH.
Qed.

Lemma upto_last_brace_none (s : string) :
  upto_last_brace s = None <-> has_char "}" s = false.
Proof.
  induction s as [|a r IH]; simpl; [tauto|].
  destruct (upto_last_brace r) as [t|].
  - split; [discriminate|]. intro H.
    apply Bool.orb_false_iff in H. destruct H as [_ H].
    apply IH in H. discriminate.
  - assert (Hr : has_char "}" r = false) by now apply IH.
    rewrite Hr, Bool.orb_false_r.
    destruct (Ascii.eqb a "}"); split; congruence.
Qed.

Lemma upto_last_brace_some (s m : string) :
  upto_last_brace s = Some m ->
  exists inner post,
    m = (inner ++ "}")%string /\ s = (m ++ post)%string
    /\ has_char "}" post = false.
Proof.
  revert m. induction s as [|a r IH]; simpl; [discriminate|]. intro m.
  destruct (upto_last_brace r) as [t|] eqn:E.
  - intros [= <-]. destruct (IH t eq_refl) as (inner & post & -> & -> & Hp).
    exists (String a inner), post. repeat split. exact Hp.
  - destruct (Ascii.eqb a "}") eqn:Ea; [|discriminate].
    intros [= <-]. apply Ascii.eqb_eq in Ea. subst a.
    exists "", r. repeat split. now apply upto_last_brace_none.
Qed.

(** X11: what is handed to [JSON.parse] when the reply holds an opening
    brace with a closing brace after it is the whole span from the first
    opening brace to the last closing brace (so two objects in one
    reply are taken as one text); there is no such span exactly when no
    closing brace follows an opening one, and the reply is then parsed
    whole. *)
Theorem braces_match_span (text : string) :
  (forall m, braces_match text = Some m ->
     exists pre inner post,
       text = (pre ++ m ++ post)%string
       /\ m = ("{" ++ inner ++ "}")%string
       /\ has_char "{" pre = false
       /\ has_char "}" post = false)
  /\ (braces_match text = None <->
      ~ exists pre inner post, text = (pre ++ "{" ++ inner ++ "}" ++ post)%string).
Proof.
  assert (Hsome : forall m, braces_match text = Some m ->
     exists pre inner post,
       text = (pre ++ m ++ post)%string
       /\ m = ("{" ++ inner ++ "}")%string
       /\ has_char "{" pre = false
       /\ has_char "}" post = false).
  { intros m H. unfold braces_match in H.
    destruct (from_first_brace text) as [t|] eqn:Et; [|discriminate].
    destruct (from_first_brace_some _ _ Et) as (pre & rest & -> & -> & Hpre).
    simpl in H. destruct (upto_last_brace rest) as [u|] eqn:Eu.
    - injection H as <-.
      destruct (upto_last_brace_some _ _ Eu) as (inner & post & -> & -> & Hpost).
      exists pre, inner, post. repeat split; assumption.
    - discriminate H. }
  split; [exact Hsome|]. split.
  - intros Hnone (pre & inner & post & ->).
    unfold braces_match in Hnone.
    destruct (from_first_brace_app pre (inner ++ "}" ++ post)) as (pre' & E).
    change (pre ++ "{" ++ inner ++ "}" ++ post)%string
      with (pre ++ String "{" (inner ++ "}" ++ post))%string in Hnone.
    rewrite E in Hnone. apply upto_last_brace_none in Hnone.
    rewrite has_char_app in Hnone. simpl in Hnone.
    rewrite has_char_app in Hnone. simpl in Hnone.
    rewrite !Bool.orb_true_r in Hnone. discriminate.
  - intro Hno. destruct (braces_match text) as [m|] eqn:E; [|reflexivity].
    exfalso. apply Hno.
    destruct (Hsome m eq_refl) as (pre & inner & post & -> & -> & _).
    exists pre, inner, post. simpl. now rewrite string_app_assoc.
Qed.

(** X12: a completion without content is not a failure: with a
    credential configured, when the reply carries no (or an empty)
    message content, the text parsed is "{}", the criteria are the empty
    object, not those of the heuristic, and the search query is the
    prompt. *)
Theorem empty_completion_gives_empty_criteria (w : World) (text : string)
    (status : Z) (j : value) :
  key_configured w = true ->
  openai w text = LlmResponse true status (Some j) ->
  nullish j = false ->
  truthy (opt_prop (opt_prop (opt_first (prop j "choices")) "message") "content")
  = false ->
  JSON_parse w "{}" = Some (VObject []) ->
  extract w text = VObject []
  /\ extract w text <> heuristicParse (Date_now w) text
  /\ query_of (extract w text) text = VString text.
Proof.
  intros Hk Ho Hj Hc Hp.
  assert (E : extract w text = VObject []).
  { unfold extract, parsePromptWithOpenAI. rewrite Hk, Ho, Hj. simpl negb.
    cbv iota. unfold or_else. rewrite Hc.
    change (braces_match "{}") with (Some "{}"). cbv iota. now rewrite Hp. }
  rewrite E. repeat split. discriminate.
Qed.

Lemma empty_completion_gives_empty_criteria_witness :
  extract (answering "") "hola" = VObject []
  /\ extract (answering "") "hola" <> heuristicParse 1700000000000 "hola"
  /\ query_of (extract (answering "") "hola") "hola" = VString "hola".
Proof.
  apply (empty_completion_gives_empty_criteria (answering "") "hola" 200
           (completion "")); reflexivity.
Defined.

End HandlerCoverage.

(* ================================================================== *)
(** * More on the score *)
(* ================================================================== *)

Module ScoreCoverage.
Import JS Scorer Spec Samples Reading ScorerFacts.

Local Open Scope Q_scope.




Lemma round_half_up_le (x y : Q) : x <= y -> (round_half_up x <= round_half_up y)%Z.
Proof. intro H. unfold round_half_up. apply Qfloor_resp_le. lra. Qed.





Lemma scorePrice_monotone (lo hi : Q) (r r' : Result) :
  lo <= hi ->
  price_or hi (price r) <= price_or hi (price r') ->
  scorePrice lo hi r' <= scorePrice lo hi r.
Proof.
  intros Hle Hp. unfold scorePrice.
  destruct (Qeq_bool hi lo) eqn:E; [apply Qle_refl|].
  apply Qeq_bool_neq in E.
  assert (Hd : 0 < hi - lo).
  { destruct (Qlt_le_dec lo hi) as [H|H]; [lra|].
    exfalso. apply E. now apply Qle_antisym. }
  assert (Hq : (price_or hi (price r) - lo) / (hi - lo)
               <= (price_or hi (price r') - lo) / (hi - lo)).
  { unfold Qdiv. apply Qmult_le_compat_r; [lra|].
    apply Qlt_le_weak. now apply Qinv_lt_0_compat. }
  lra.
Qed.

(** X14: all else equal, a cheaper result never scores lower: of two
    results of one batch with the same shipping and the same seller
    score, the one scored with the lower price has the higher or the
    same score. *)
Theorem cheaper_never_scores_lower (cal : Calendar) (results : list Result)
    (r r' : Result) :
  let lo := minPrice results in
  let hi := maxPrice results in
  truthy (free_shipping r) = truthy (free_shipping r') ->
  scoreSeller cal r = scoreSeller cal r' ->
  price_or hi (price r) <= price_or hi (price r') ->
  number_le (compositeScore cal lo hi r') (compositeScore cal lo hi r).
Proof.
  intros lo hi Hf Hs Hp. unfold compositeScore, scoreShipping.
  rewrite Hf, Hs.
  pose proof (scorePrice_monotone lo hi r r' (minPrice_le_maxPrice results) Hp) as Hm.
  destruct (scoreSeller cal r') as [|s]; [exact I|]. simpl.
  rewrite <- Zle_Qle. apply round_half_up_le.
  destruct (truthy (free_shipping r')); lra.
Qed.

Lemma cheaper_never_scores_lower_witness :
  number_le
    (compositeScore (calendar_of 2026) (minPrice batch) (maxPrice batch)
                    (priced 200 false))
    (compositeScore (calendar_of 2026) (minPrice batch) (maxPrice batch)
                    (priced 120 false)).
Proof.
  apply (cheaper_never_scores_lower (calendar_of 2026) batch
           (priced 120 false) (priced 200 false));
    [reflexivity | reflexivity | discriminate].
Defined.

(** X15: the seller score by age, the age being the current year minus
    the registration year: 1 from ten years on, and 0.4 plus 0.06 per
    year below that (so 0.4 for a seller registered this year, and less
    than 0.4 for a registration year in the future). *)
Theorem seller_score_by_age (cal : Calendar) (r : Result) (year : Q) :
  truthy (registration_date (seller r)) = true ->
  fullYearOf cal (registration_date (seller r)) = Num year ->
  let age := inject_Z (currentYear cal) - year in
  exists s,
    scoreSeller cal r = Num s
    /\ s <= 1
    /\ (10 <= age -> s == 1)
    /\ (age <= 10 -> s == 0.4 + 0.06 * age).
Proof.
  intros Ht Hy age. unfold scoreSeller. rewrite Ht, Hy. simpl.
  eexists. split; [reflexivity|]. fold age.
  destruct (Q.min_spec age 10) as [[L E]|[L E]];
    destruct (Q.min_spec 1 (0.4 + 0.06 * Qmin age 10)) as [[L' F]|[L' F]];
    rewrite F; rewrite ?E in *; repeat split; intros; lra.
Qed.

Lemma seller_score_by_age_witness :
  let age := inject_Z 2026 - 2020 in
  exists s,
    scoreSeller (calendar_of 2026) since_2020 = Num s
    /\ s <= 1
    /\ (10 <= age -> s == 1)
    /\ (age <= 10 -> s == 0.4 + 0.06 * age).
Proof.
  apply (seller_score_by_age (calendar_of 2026) since_2020 2020); reflexivity.
Defined.



End ScoreCoverage.
